(** * Network-constrained Lasso on simulated data

    A shallow embedding of the code cells of
    [tutorial_1_simulated_data.ipynb]:

    - the cell that builds the graph Laplacian of the adjacency matrix [W]
      and a square root of it by eigen-decomposition, together with the
      cell that prints how far [S.T S] is from [L];
    - the cell that holds the class [ncLasso] with its methods [__init__],
      [fit] and [predict], as a [class] statement that Python compiles
      before it binds the name;
    - the cells that simulate the network, the phenotype and the shuffle
      of the features.

    Numbers are the real numbers of the Standard Library: rounding is not
    modelled.  The square root of a negative number is [nan] in numpy; it
    is modelled where the cell could meet one ([SqrtNan]).  numpy arrays
    are lists (one-dimensional) and lists of rows (two-dimensional) with
    numpy's shape rules written out.  Python exceptions are an explicit
    error result.  The two library routines the cells call,
    [np.linalg.eigh] and [linear_model.Lasso.fit], are parameters of the
    development. *)

From Stdlib Require Import Reals Lra Lia List.
From stdpp Require Import gmap strings.
Import ListNotations.

(** ** Python outcomes *)

Module Py.

(** Exceptions by class, with the message where the cells depend on it. *)
Inductive exn : Type :=
| NameError (name : string)
| AttributeError (attr : string)
| ValueError (msg : string)
| LinAlgError (msg : string)
| OtherError (cls : string).

Inductive result (A : Type) : Type :=
| Ok (a : A)
| Raise (e : exn).
Arguments Ok {A} a.
Arguments Raise {A} e.

Definition bind {A B : Type} (r : result A) (k : A -> result B) : result B :=
  match r with
  | Ok a => k a
  | Raise e => Raise e
  end.

Definition raises {A : Type} (r : result A) : Prop :=
  exists e, r = Raise e.

(** The two error classes that the specification names for mismatched
    shapes.  No cell of the notebook defines or raises either. *)
Definition is_shape_error (e : exn) : Prop :=
  e = OtherError "ShapeError" \/ e = OtherError "ConfigurationError".

End Py.

(** [x ← r; k] sequences two computations that may raise. *)
#[global] Instance result_ret : MRet Py.result := fun A a => Py.Ok a.
#[global] Instance result_bind : MBind Py.result := fun A B k r => Py.bind r k.

(** ** Finite sums of reals *)

Section BigSum.
Local Open Scope R_scope.

(** [big_sum n f] is [f 0 + ... + f (n-1)]. *)
Fixpoint big_sum (n : nat) (f : nat -> R) : R :=
  match n with
  | O => 0
  | S k => big_sum k f + f k
  end.

End BigSum.

(** ** numpy arrays *)

Module Np.
Local Open Scope R_scope.

Definition vector := list R.
Definition matrix := list (list R).

(** Shape of a two-dimensional array given as its list of rows. *)
Definition nrows (A : matrix) : nat := length A.
Definition ncols (A : matrix) : nat := length (hd [] A).

(** [A[i, j]] and [v[i]] *)
Definition get (A : matrix) (i j : nat) : R := nth j (nth i A []) 0.
Definition vget (v : vector) (i : nat) : R := nth i v 0.

Definition mk_vector (n : nat) (f : nat -> R) : vector := map f (seq 0 n).
Definition mk_matrix (m n : nat) (f : nat -> nat -> R) : matrix :=
  map (fun i => mk_vector n (f i)) (seq 0 m).

(** A list of rows is an [m] by [n] array when it has [m] rows of length [n]. *)
Definition is_array (m n : nat) (A : matrix) : Prop :=
  length A = m /\ Forall (fun row => length row = n) A.

Definition zeros (n : nat) : vector := mk_vector n (fun _ => 0).
Definition zeros2 (m n : nat) : matrix := mk_matrix m n (fun _ _ => 0).
Definition ones (n : nat) : vector := mk_vector n (fun _ => 1).

(** [np.sum(A, axis=0)]: one entry per column, the sum down that column. *)
Definition sum_axis0 (A : matrix) : vector :=
  mk_vector (ncols A) (fun j => big_sum (nrows A) (fun i => get A i j)).

(** [np.diag(v)] for one-dimensional [v]. *)
Definition diag (v : vector) : matrix :=
  mk_matrix (length v) (length v)
    (fun i j => if Nat.eqb i j then vget v i else 0).

(** Broadcasting of one axis: equal lengths, or one of them is 1. *)
Definition broadcast (a b : nat) : option nat :=
  if Nat.eqb a b then Some a
  else if Nat.eqb a 1 then Some b
  else if Nat.eqb b 1 then Some a
  else None.

(** Index into an axis of length [a] when it is broadcast. *)
Definition bidx (a i : nat) : nat := if Nat.eqb a 1 then O else i.

(** [A - B] on two-dimensional arrays, with numpy's broadcasting. *)
Definition sub (A B : matrix) : Py.result matrix :=
  match broadcast (nrows A) (nrows B), broadcast (ncols A) (ncols B) with
  | Some m, Some n =>
      Py.Ok (mk_matrix m n (fun i j =>
               get A (bidx (nrows A) i) (bidx (ncols A) j)
               - get B (bidx (nrows B) i) (bidx (ncols B) j)))
  | _, _ => Py.Raise (Py.ValueError "operands could not be broadcast together")
  end.

(** [np.maximum(c, v)], [np.sqrt(v)], [np.abs(A)] are elementwise.  [sqrt]
    is [np.sqrt] on non-negative entries; on a negative entry [np.sqrt]
    gives [nan], which [SqrtNan.sqrt] below models. *)
Definition maximum (c : R) (v : vector) : vector := map (Rmax c) v.
Definition sqrt (v : vector) : vector := map R_sqrt.sqrt v.
Definition abs (A : matrix) : matrix := map (map Rabs) A.

(** [A.T] *)
Definition T (A : matrix) : matrix :=
  mk_matrix (ncols A) (nrows A) (fun i j => get A j i).

(** [np.dot(A, B)] and [np.matmul(A, B)] on two-dimensional arrays. *)
Definition dot (A B : matrix) : Py.result matrix :=
  if Nat.eqb (ncols A) (nrows B) then
    Py.Ok (mk_matrix (nrows A) (ncols B) (fun i j =>
             big_sum (ncols A) (fun k => get A i k * get B k j)))
  else Py.Raise (Py.ValueError "shapes not aligned").

Definition matmul := dot.

(** [np.dot(A, v)] with one-dimensional [v]. *)
Definition dotv (A : matrix) (v : vector) : Py.result vector :=
  if Nat.eqb (ncols A) (length v) then
    Py.Ok (mk_vector (nrows A) (fun i =>
             big_sum (ncols A) (fun k => get A i k * vget v k)))
  else Py.Raise (Py.ValueError "shapes not aligned").

(** [np.max(A)]: the largest entry; an error on an array without entries. *)
Definition max (A : matrix) : Py.result R :=
  match concat A with
  | [] => Py.Raise (Py.ValueError "zero-size array to reduction operation")
  | x :: xs => Py.Ok (fold_left Rmax xs x)
  end.

(** The real square root is defined on the non-negative numbers only;
    [np.sqrt] gives [nan] elsewhere. [sqrt_or_nan] is the square root with
    [None] for [nan]. *)
Definition sqrt_or_nan (x : R) : option R :=
  if Rle_dec 0 x then Some (R_sqrt.sqrt x) else None.

End Np.

(** ** The square root of the Laplacian by eigen-decomposition *)

Module Sqrt.
Local Open Scope R_scope.
Import Np.

(** [np.linalg.eigh] takes a square array, reads its lower triangle, and
    returns the eigenvalues and the array whose columns are the
    eigenvectors, or raises [LinAlgError]. *)
Definition eigensolver : Type := matrix -> Py.result (vector * matrix).

(** The names the cell binds. *)
Record cell_env : Type := mk_env {
  degree : vector;
  L : matrix;
  evals : vector;
  evecs : matrix;
  S : matrix
}.

(** [degree = np.sum(W, axis=0); L = np.diag(degree) - W] *)
Definition laplacian (W : matrix) : Py.result matrix :=
  sub (diag (sum_axis0 W)) W.

(** The cell, line by line:
<<
    degree = np.sum(W, axis=0)
    L = np.diag(degree) - W
    evals, evecs = np.linalg.eigh(L)
    evals = np.maximum(0, evals)
    S = np.dot(np.diag(np.sqrt(evals)), evecs.T)
>> *)
Definition sqrt_cell (eigh : eigensolver) (W : matrix) : Py.result cell_env :=
  let degree := sum_axis0 W in
  L ← sub (diag degree) W;
  '(evals, evecs) ← eigh L;
  let evals := maximum 0 evals in
  S ← dot (diag (sqrt evals)) (T evecs);
  mret (mk_env degree L evals evecs S).

(** The next cell: [print(np.max(np.abs(np.matmul(S.T, S) - L)))].
    The result is the number printed. *)
Definition check_cell (S L : matrix) : Py.result R :=
  G ← matmul (T S) S;
  D ← sub G L;
  max (abs D).

(** The symmetric matrix a lower-triangle eigensolver sees in [A]. *)
Definition lower_sym (A : matrix) (i j : nat) : R :=
  get A (Nat.max i j) (Nat.min i j).

(** [ev], [U] is an exact eigen-decomposition of the [p] by [p] array [A]:
    the columns of [U] are orthonormal and [A = U diag(ev) U.T]. *)
Definition eigen_decomposition (p : nat) (A : matrix) (ev : vector) (U : matrix) : Prop :=
  length ev = p /\ is_array p p U /\
  (forall k l, (k < p)%nat -> (l < p)%nat ->
     big_sum p (fun i => get U i k * get U i l) = if Nat.eqb k l then 1 else 0) /\
  (forall i j, (i < p)%nat -> (j < p)%nat ->
     lower_sym A i j = big_sum p (fun k => get U i k * vget ev k * get U j k)).

(** The eigensolver returns arrays of the right shapes when it returns. *)
Definition eigh_shapes (eigh : eigensolver) : Prop :=
  forall A ev U, eigh A = Py.Ok (ev, U) ->
    length ev = nrows A /\ is_array (nrows A) (nrows A) U.

(** The adjacency matrices of the data model. *)
Definition symmetric (p : nat) (W : matrix) : Prop :=
  forall i j, (i < p)%nat -> (j < p)%nat -> get W i j = get W j i.
Definition nonnegative (p : nat) (W : matrix) : Prop :=
  forall i j, (i < p)%nat -> (j < p)%nat -> 0 <= get W i j.
Definition zero_diagonal (p : nat) (W : matrix) : Prop :=
  forall i, (i < p)%nat -> get W i i = 0.
Definition adjacency (p : nat) (W : matrix) : Prop :=
  is_array p p W /\ symmetric p W /\ nonnegative p W /\ zero_diagonal p W.

(** [x.T L x] *)
Definition quadratic_form (p : nat) (A : matrix) (x : vector) : R :=
  big_sum p (fun i => big_sum p (fun j => vget x i * get A i j * vget x j)).

#[global] Instance R_eq_dec : EqDecision R := Req_dec_T.

(** An eigensolver given by a table of decompositions: it answers with
    the recorded eigenvalues and eigenvectors on the arrays of the table and
    reports that it did not converge on any other.  It stands for
    [np.linalg.eigh] in the worked examples. *)
Fixpoint eigh_table (tbl : list (matrix * (vector * matrix))) : eigensolver :=
  fun A =>
    match tbl with
    | [] => Py.Raise (Py.LinAlgError "Eigenvalues did not converge")
    | (A0, r) :: tbl' => if decide (A = A0) then Py.Ok r else eigh_table tbl' A
    end.

End Sqrt.

(** ** Entrywise forms and worked examples *)

Section Entries.
Local Open Scope R_scope.
Import Np.

(** The entries of [L = np.diag(np.sum(W, axis=0)) - W]. *)
Definition laplacian_entry (p : nat) (W : matrix) (i j : nat) : R :=
  (if Nat.eqb i j then big_sum p (fun k => get W k i) else 0) - get W i j.

(** The entries of [S = np.dot(np.diag(np.sqrt(evals)), evecs.T)] after the
    eigenvalues have been clamped. *)
Definition sqrt_entry (ev : vector) (U : matrix) (k i : nat) : R :=
  R_sqrt.sqrt (Rmax 0 (vget ev k)) * get U i k.

Definition identity2 : matrix := [[1; 0]; [0; 1]].

(** Two nodes joined by an edge: adjacency, Laplacian, and its exact
    eigen-decomposition with eigenvalues 0 and 2. *)
Definition W_edge : matrix := [[0; 1]; [1; 0]].
Definition L_edge : matrix := [[1; -1]; [-1; 1]].
Definition ev_edge : vector := [0; 2].
Definition U_edge : matrix :=
  [[R_sqrt.sqrt 2 / 2; - (R_sqrt.sqrt 2 / 2)]; [R_sqrt.sqrt 2 / 2; R_sqrt.sqrt 2 / 2]].

(** The same eigenvalues as a solver in floating point may report them:
    the zero eigenvalue comes out slightly negative. *)
Definition ev_edge_rounded : vector := [- (1 / 1000000); 2].

(** Two nodes without an edge. *)
Definition W_empty : matrix := zeros2 2 2.

(** A matrix that is not symmetric, and the lower triangle of its
    "Laplacian", which is diagonal with entries 0 and 1. *)
Definition W_asym : matrix := [[0; 1]; [0; 0]].
Definition L_asym : matrix := [[0; -1]; [0; 1]].

(** A matrix that is not square: one row, two columns. Subtracting it from
    the 2 by 2 [np.diag(degree)] broadcasts its row. *)
Definition W_row : matrix := [[0; 1]].
Definition L_row : matrix := [[0; -1]; [0; 0]].

(** The eigensolver of the examples. *)
Definition eigh_examples : Sqrt.eigensolver :=
  Sqrt.eigh_table
    [ (L_edge, (ev_edge, U_edge));
      (L_asym, ([0; 1], identity2));
      (L_row, ([0; 0], identity2));
      (zeros2 2 2, ([0; 0], identity2)) ].

Definition eigh_rounded : Sqrt.eigensolver :=
  Sqrt.eigh_table [ (L_edge, (ev_edge_rounded, U_edge)) ].

End Entries.

(** ** The square-root cell with numpy's square root *)

Module SqrtNan.
Local Open Scope R_scope.
Import Np.

(** A number of numpy that may be [nan]: [None] is [nan].  A product or a
    sum with a [nan] is [nan]. *)
Definition fnum : Type := option R.
Definition fvector : Type := list fnum.
Definition fmatrix : Type := list (list fnum).

Definition fmul (a b : fnum) : fnum :=
  match a, b with
  | Some x, Some y => Some (x * y)
  | _, _ => None
  end.

Definition fadd (a b : fnum) : fnum :=
  match a, b with
  | Some x, Some y => Some (x + y)
  | _, _ => None
  end.

Fixpoint fsum (n : nat) (f : nat -> fnum) : fnum :=
  match n with
  | O => Some 0
  | Datatypes.S k => fadd (fsum k f) (f k)
  end.

Definition fget (A : fmatrix) (i j : nat) : fnum := nth j (nth i A []) (Some 0).
Definition fvget (v : fvector) (i : nat) : fnum := nth i v (Some 0).
Definition mk_fmatrix (m n : nat) (f : nat -> nat -> fnum) : fmatrix :=
  map (fun i => map (f i) (seq 0 n)) (seq 0 m).

(** An array of reals read as an array of numbers, none of them [nan]. *)
Definition lift (A : matrix) : fmatrix := map (map Some) A.

(** [np.sqrt(v)]: [nan] at a negative entry. *)
Definition sqrt (v : vector) : fvector := map sqrt_or_nan v.

(** [np.diag(v)] *)
Definition diag (v : fvector) : fmatrix :=
  mk_fmatrix (length v) (length v)
    (fun i j => if Nat.eqb i j then fvget v i else Some 0).

(** [np.dot(A, B)] *)
Definition dot (A : fmatrix) (B : matrix) : Py.result fmatrix :=
  if Nat.eqb (length (hd [] A)) (nrows B) then
    Py.Ok (mk_fmatrix (length A) (ncols B) (fun i j =>
             fsum (length (hd [] A)) (fun k => fmul (fget A i k) (Some (get B k j)))))
  else Py.Raise (Py.ValueError "shapes not aligned").

(** The last line of the cell, [S = np.dot(np.diag(np.sqrt(evals)), evecs.T)],
    as a function of the [evals] and [evecs] it reads. *)
Definition sqrt_line (evals : vector) (evecs : matrix) : Py.result fmatrix :=
  dot (diag (sqrt evals)) (T evecs).

(** The names the cell binds. *)
Record cell_env : Type := mk_env {
  degree : vector;
  L : matrix;
  evals : vector;
  evecs : matrix;
  S : fmatrix
}.

(** The cell of [Sqrt.sqrt_cell], line by line, with the square root that
    gives [nan] on a negative number:
<<
    degree = np.sum(W, axis=0)
    L = np.diag(degree) - W
    evals, evecs = np.linalg.eigh(L)
    evals = np.maximum(0, evals)
    S = np.dot(np.diag(np.sqrt(evals)), evecs.T)
>> *)
Definition sqrt_cell (eigh : Sqrt.eigensolver) (W : matrix) : Py.result cell_env :=
  let degree := sum_axis0 W in
  L ← sub (Np.diag degree) W;
  '(evals, evecs) ← eigh L;
  let evals := maximum 0 evals in
  S ← sqrt_line evals evecs;
  mret (mk_env degree L evals evecs S).

(** An entry is a number when it is not [nan]. *)
Definition no_nan (A : fmatrix) : Prop := Forall (Forall (fun x : fnum => is_Some x)) A.

End SqrtNan.

(** ** The estimator *)

Module NcLasso.
Local Open Scope R_scope.

(** Python values that the class handles.  [PyLasso] is an object of
    [linear_model.Lasso]: its two constructor arguments and, once fitted,
    its [coef_] and [intercept_]. *)
Inductive pyval : Type :=
| PyNone
| PyFloat (r : R)
| PyVec (v : Np.vector)
| PyMat (A : Np.matrix)
| PyLasso (fit_intercept : bool) (alpha : pyval) (fitted : option (Np.vector * R)).

(** What a method returns: the object itself, or a value. *)
Inductive ret : Type :=
| RetSelf
| RetVal (v : pyval).

(** The attributes of an object, the global variables of the notebook, the
    parameters of a call, and the arguments written in a call. *)
Abbreviation attrs := (gmap string pyval).
Abbreviation globals := (gmap string pyval).
Abbreviation locals := (gmap string pyval).
Abbreviation arguments := (list (string * pyval)).

(** [linear_model.Lasso.fit]: from the constructor arguments, the state of
    the object and the two arguments of the call to the new state of the
    object and the exception raised, if any. *)
Definition lasso_solver : Type :=
  bool -> pyval -> option (Np.vector * R) -> pyval -> pyval ->
  option (Np.vector * R) * option Py.exn.

(** A computation inside a method: it reads and writes the attributes of
    [self] and returns or raises. *)
Definition M (A : Type) : Type := attrs -> attrs * Py.result A.

#[global] Instance M_ret : MRet M := fun A a self => (self, Py.Ok a).
#[global] Instance M_bind : MBind M := fun A B k m self =>
  match m self with
  | (self', Py.Ok a) => k a self'
  | (self', Py.Raise e) => (self', Py.Raise e)
  end.

(** [self.name] *)
Definition getattr (name : string) : M pyval := fun self =>
  match self !! name with
  | Some v => (self, Py.Ok v)
  | None => (self, Py.Raise (Py.AttributeError name))
  end.

(** [self.name = v] *)
Definition setattr (name : string) (v : pyval) : M unit := fun self =>
  (<[name := v]> self, Py.Ok tt).

(** A name that the body reads and does not assign: a parameter of the
    call, or else a global of the notebook. *)
Definition load (l : locals) (g : globals) (name : string) : M pyval := fun self =>
  match l !! name with
  | Some v => (self, Py.Ok v)
  | None =>
      match g !! name with
      | Some v => (self, Py.Ok v)
      | None => (self, Py.Raise (Py.NameError name))
      end
  end.

(** [self.name.fit(X, y)]: the call works on the object the attribute
    refers to, which keeps what the solver did to it also when it raises. *)
Definition call_fit (Lasso_fit : lasso_solver) (name : string) (X y : pyval) : M unit :=
  fun self =>
    match self !! name with
    | Some (PyLasso fi a st) =>
        let '(st', e) := Lasso_fit fi a st X y in
        let self' := <[name := PyLasso fi a st']> self in
        match e with
        | Some ex => (self', Py.Raise ex)
        | None => (self', Py.Ok tt)
        end
    | Some _ => (self, Py.Raise (Py.AttributeError "fit"))
    | None => (self, Py.Raise (Py.AttributeError name))
    end.

(** A statement of a method body, run with the inner solver, the globals
    and the parameters of the call: it goes on ([None]) or returns. *)
Definition stmt : Type := lasso_solver -> globals -> locals -> M (option ret).

(** [self.attr = name] *)
Definition assign_attr (attr name : string) : stmt := fun _ g l =>
  v ← load l g name; setattr attr v;; mret None.

(** [self.lasso = linear_model.Lasso(fit_intercept=True, alpha=self.lambda1)];
    the cell before the class has imported [linear_model]. *)
Definition assign_lasso : stmt := fun _ _ _ =>
  alpha ← getattr "lambda1"; setattr "lasso" (PyLasso true alpha None);; mret None.

(** [self.lasso.fit(X_new, y_new)]: [self.lasso.fit] is evaluated first,
    then the arguments from left to right. *)
Definition call_lasso_fit : stmt := fun Lasso_fit g l =>
  _ ← getattr "lasso";
  X_new ← load l g "X_new";
  y_new ← load l g "y_new";
  call_fit Lasso_fit "lasso" X_new y_new;;
  mret None.

(** [return self] *)
Definition return_self : stmt := fun _ _ _ => mret (Some RetSelf).

(** A [def] of the class: its name, its parameters after [self] with
    their defaults, and the statements of its body.  Comments are no
    statements. *)
Record def : Type := mk_def {
  def_name : string;
  def_params : list (string * option pyval);
  def_body : list stmt
}.

(**
<<
    def __init__(self, LapSqrt=None, lambda1=1.0, lambda2=1.0):
        self.LapSqrt = LapSqrt # sparse matrix
        self.lambda1 = lambda1
        self.lambda2 = lambda2
>> *)
Definition __init__ : def :=
  mk_def "__init__"
    [("LapSqrt", Some PyNone); ("lambda1", Some (PyFloat 1)); ("lambda2", Some (PyFloat 1))]
    [assign_attr "LapSqrt" "LapSqrt"; assign_attr "lambda1" "lambda1";
     assign_attr "lambda2" "lambda2"].

(**
<<
    def fit(self, X, y):
        self.lasso = linear_model.Lasso(fit_intercept=True, alpha=self.lambda1)

        ## TODO:
        ## y_new = ...
        ## X_new = ...

        self.lasso.fit(X_new, y_new)
        ## TODO:
        ## self.coef_ = ...

        return self
>>  The body has three statements.  It assigns neither [X_new] nor
    [y_new], so both are read as globals. *)
Definition fit : def :=
  mk_def "fit" [("X", None); ("y", None)] [assign_lasso; call_lasso_fit; return_self].

(**
<<
    def predict(self, X, y=None):
        ## TODO:
        ## return ...
>>  Under this [def] the source has comments only: its body has no
    statement.  [predict_with body] is the [def] with the statements
    [body] written under it, and [predict] is the [def] of the source. *)
Definition predict_with (body : list stmt) : def :=
  mk_def "predict" [("X", None); ("y", Some PyNone)] body.
Definition predict : def := predict_with [].

(** The body of [class ncLasso(base.BaseEstimator, base.RegressorMixin)],
    with some statements under [predict], and as the source has it.  The
    methods of the two base classes are not modelled. *)
Definition ncLasso_with (body : list stmt) : list def :=
  [__init__; fit; predict_with body].
Definition ncLasso : list def := ncLasso_with [].

(** The names of the notebook: its global variables and its classes. *)
Record namespace : Type := mk_ns {
  vars : globals;
  classes : gmap string (list def)
}.

(** Python compiles a cell before it runs it, and a [def] needs an
    indented block of at least one statement. *)
Definition has_block (d : def) : bool :=
  match def_body d with
  | [] => false
  | _ :: _ => true
  end.

(** A cell that holds one [class] statement: when it does not compile it
    raises [SyntaxError] ([IndentationError] is one) and binds nothing. *)
Definition class_statement (name : string) (defs : list def) (ns : namespace)
  : namespace * Py.result unit :=
  if forallb has_block defs
  then (mk_ns (vars ns) (<[name := defs]> (classes ns)), Py.Ok tt)
  else (ns, Py.Raise (Py.OtherError "SyntaxError")).

(** The value of an argument of a call, by the name of its parameter. *)
Fixpoint argument (name : string) (args : arguments) : option pyval :=
  match args with
  | [] => None
  | (k, v) :: args' => if String.eqb k name then Some v else argument name args'
  end.

(** The parameters of a call: the argument given, or else the default;
    a parameter without either is a [TypeError]. *)
Fixpoint bind_params (params : list (string * option pyval)) (args : arguments)
  : Py.result locals :=
  match params with
  | [] => Py.Ok ∅
  | (p, dflt) :: params' =>
      l ← bind_params params' args;
      match argument p args, dflt with
      | Some v, _ => Py.Ok (<[p := v]> l)
      | None, Some v => Py.Ok (<[p := v]> l)
      | None, None => Py.Raise (Py.OtherError "TypeError")
      end
  end.

(** Every argument must name a parameter. *)
Definition known_arguments (params : list (string * option pyval)) (args : arguments) : bool :=
  forallb (fun kv => existsb (String.eqb kv.1) (map fst params)) args.

(** The statements of a body in turn; a body that ends without [return]
    gives [None]. *)
Fixpoint exec (body : list stmt) (Lasso_fit : lasso_solver) (g : globals) (l : locals)
  : M ret :=
  match body with
  | [] => mret (RetVal PyNone)
  | s :: body' =>
      r ← s Lasso_fit g l;
      match r with
      | Some v => mret v
      | None => exec body' Lasso_fit g l
      end
  end.

(** [self.name(args)] for a method of the class. *)
Definition call_method (Lasso_fit : lasso_solver) (g : globals) (defs : list def)
           (name : string) (args : arguments) : M ret := fun self =>
  match find (fun d => String.eqb (def_name d) name) defs with
  | None => (self, Py.Raise (Py.AttributeError name))
  | Some d =>
      if known_arguments (def_params d) args then
        match bind_params (def_params d) args with
        | Py.Ok l => exec (def_body d) Lasso_fit g l self
        | Py.Raise e => (self, Py.Raise e)
        end
      else (self, Py.Raise (Py.OtherError "TypeError"))
  end.

(** [cname(args)]: the class is looked up by its name, and [__init__] runs
    on a new object. *)
Definition construct (Lasso_fit : lasso_solver) (ns : namespace) (cname : string)
           (args : arguments) : Py.result (list def * attrs) :=
  match classes ns !! cname with
  | None => Py.Raise (Py.NameError cname)
  | Some defs =>
      match call_method Lasso_fit (vars ns) defs "__init__" args ∅ with
      | (self, Py.Ok _) => Py.Ok (defs, self)
      | (_, Py.Raise e) => Py.Raise e
      end
  end.

(** [cname(args).name(margs)]: the object after the call, when there is
    one, and what the call returns or raises. *)
Definition construct_and_call (Lasso_fit : lasso_solver) (ns : namespace)
           (cname : string) (args : arguments) (name : string) (margs : arguments)
  : option attrs * Py.result ret :=
  match construct Lasso_fit ns cname args with
  | Py.Raise e => (None, Py.Raise e)
  | Py.Ok (defs, self) =>
      let '(self', r) := call_method Lasso_fit (vars ns) defs name margs self in
      (Some self', r)
  end.

(** The cell of the class, with some statements under [predict] and as
    the source has it, and the names of the notebook after it has been
    run with the globals [g]. *)
Definition class_cell_with (body : list stmt) (ns : namespace) : namespace * Py.result unit :=
  class_statement "ncLasso" (ncLasso_with body) ns.
Definition class_cell (ns : namespace) : namespace * Py.result unit :=
  class_cell_with [] ns.
Definition after_class_cell_with (body : list stmt) (g : globals) : namespace :=
  (class_cell_with body (mk_ns g ∅)).1.
Definition after_class_cell (g : globals) : namespace := after_class_cell_with [] g.

(** The global names the notebook has bound when the class is used: the
    data and the graph.  No cell binds [X_new] or [y_new]. *)
Definition notebook_globals (X : Np.matrix) (y : Np.vector) (W : Np.matrix) : globals :=
  <["W" := PyMat W]> (<["y" := PyVec y]> (<["X" := PyMat X]> ∅)).

(** The arguments [LapSqrt=..., lambda1=..., lambda2=...] of a call of the
    class, each given or left out. *)
Definition init_arguments (LapSqrt lambda1 lambda2 : option pyval) : arguments :=
  match LapSqrt with Some v => [("LapSqrt", v)] | None => [] end
  ++ match lambda1 with Some v => [("lambda1", v)] | None => [] end
  ++ match lambda2 with Some v => [("lambda2", v)] | None => [] end.

(** [ncLasso(LapSqrt, lambda1, lambda2).fit(X, y)] and
    [ncLasso(LapSqrt, lambda1, lambda2).predict(X)] *)
Definition fit_call (Lasso_fit : lasso_solver) (ns : namespace)
           (LapSqrt lambda1 lambda2 : option pyval) (X y : pyval)
  : option attrs * Py.result ret :=
  construct_and_call Lasso_fit ns "ncLasso" (init_arguments LapSqrt lambda1 lambda2)
    "fit" [("X", X); ("y", y)].

Definition predict_call (Lasso_fit : lasso_solver) (ns : namespace)
           (LapSqrt lambda1 lambda2 : option pyval) (X : pyval)
  : option attrs * Py.result ret :=
  construct_and_call Lasso_fit ns "ncLasso" (init_arguments LapSqrt lambda1 lambda2)
    "predict" [("X", X)].

(** [obj.name] on the object that a call leaves, when it leaves one. *)
Definition attribute (o : option attrs) (name : string) : option pyval :=
  self ← o; self !! name.

(** The object that [__init__] makes. *)
Definition new_object (LapSqrt lambda1 lambda2 : option pyval) : attrs :=
  <["lambda2" := default (PyFloat 1) lambda2]>
    (<["lambda1" := default (PyFloat 1) lambda1]>
       (<["LapSqrt" := default PyNone LapSqrt]> ∅)).

(** The linear map of a fitted model, [X beta + intercept]. *)
Definition linear_map (X : Np.matrix) (beta : Np.vector) (intercept : R) : Np.vector :=
  Np.mk_vector (Np.nrows X) (fun i =>
    big_sum (Np.ncols X) (fun k => Np.get X i k * Np.vget beta k) + intercept).

(** An inner solver raises no error of the two classes that the
    specification names for shapes, and leaves its object as it was when
    it raises. *)
Definition no_shape_error (Lasso_fit : lasso_solver) : Prop :=
  forall fi a st X y e, (Lasso_fit fi a st X y).2 = Some e -> ~ Py.is_shape_error e.
Definition stores_nothing_on_error (Lasso_fit : lasso_solver) : Prop :=
  forall fi a st X y e, (Lasso_fit fi a st X y).2 = Some e -> (Lasso_fit fi a st X y).1 = st.

(** A solver for the worked examples: on a two-dimensional design it
    stores zero coefficients, one per column, and a zero intercept; on
    anything else it raises [ValueError] and stores nothing. *)
Definition Lasso_fit_zero : lasso_solver := fun _ _ st X _ =>
  match X with
  | PyMat A => (Some (Np.zeros (Np.ncols A), 0), None)
  | _ => (st, Some (Py.ValueError "Expected 2D array"))
  end.

End NcLasso.

(** ** Data of the worked examples of the estimator *)

Section EstimatorData.
Local Open Scope R_scope.

(** The shapes of the specification's example: [X] is 100 by 50 and the
    square root has 60 columns. *)
Definition X_100_50 : Np.matrix := Np.zeros2 100 50.
Definition y_100 : Np.vector := Np.zeros 100.
Definition S_1_60 : Np.matrix := Np.zeros2 1 60.
Definition W_60 : Np.matrix := Np.zeros2 60 60.

End EstimatorData.

(** ** The cells that simulate the data *)

Module Sim.
Local Open Scope R_scope.
Import Np.

(** [np.ones((m, n))] and [np.eye(n)] *)
Definition ones2 (m n : nat) : matrix := mk_matrix m n (fun _ _ => 1).
Definition eye (n : nat) : matrix :=
  mk_matrix n n (fun i j => if Nat.eqb i j then 1 else 0).

(** [round(n / m)] for two non-negative ints and [m > 0]: the quotient is
    rounded to the nearest int, a tie to the even one.  The float quotient
    rounds as the exact one does for all sizes below 2^50. *)
Definition round_div (n m : nat) : nat :=
  let q := (n / m)%nat in
  let r := (n mod m)%nat in
  if Nat.ltb (2 * r) m then q
  else if Nat.ltb m (2 * r) then Datatypes.S q
  else if Nat.even q then q else Datatypes.S q.

(** An array of length [a] along an axis can be assigned to a target of
    length [t] when the lengths agree or [a] is 1. *)
Definition broadcast_to (a t : nat) : bool := Nat.eqb a t || Nat.eqb a 1.

(** [W[a:b, c:d] = V]: the bounds of a slice are clipped to the shape. *)
Definition set_slice2 (W : matrix) (a b c d : nat) (V : matrix) : Py.result matrix :=
  let m := nrows W in
  let n := ncols W in
  let a' := Nat.min a m in
  let b' := Nat.min b m in
  let c' := Nat.min c n in
  let d' := Nat.min d n in
  if broadcast_to (nrows V) (b' - a') && broadcast_to (ncols V) (d' - c') then
    Py.Ok (mk_matrix m n (fun i j =>
             if Nat.leb a' i && Nat.ltb i b' && Nat.leb c' j && Nat.ltb j d'
             then get V (bidx (nrows V) (i - a')) (bidx (ncols V) (j - c'))
             else get W i j))
  else Py.Raise (Py.ValueError "could not broadcast input array").

(** [W[i, j] = v] for two non-negative ints. *)
Definition set_item (W : matrix) (i j : nat) (v : R) : Py.result matrix :=
  if Nat.ltb i (nrows W) && Nat.ltb j (ncols W) then
    Py.Ok (mk_matrix (nrows W) (ncols W) (fun i' j' =>
             if Nat.eqb i' i && Nat.eqb j' j then v else get W i' j'))
  else Py.Raise (Py.OtherError "IndexError").

(** [for i in l: a = body(a, i)] *)
Fixpoint for_range {A : Type} (body : A -> nat -> Py.result A) (l : list nat) (a : A)
  : Py.result A :=
  match l with
  | [] => Py.Ok a
  | i :: l' => a' ← body a i; for_range body l' a'
  end.

(** The body of the loop over the modules:
<<
    W[i*mod_size:(i+1)*mod_size, i*mod_size:(i+1)*mod_size] = np.ones((mod_size, mod_size))
    if not i == (num_feats/mod_size - 1):
        W[(i+1)*mod_size-1, (i+1)*mod_size] = 1
        W[(i+1)*mod_size, (i+1)*mod_size-1] = 1
>>  [i == num_feats/mod_size - 1] holds when [(i+1) * mod_size] is
    [num_feats]. *)
Definition network_body (num_feats mod_size : nat) (W : matrix) (i : nat)
  : Py.result matrix :=
  W ← set_slice2 W (i * mod_size) ((i + 1) * mod_size)
        (i * mod_size) ((i + 1) * mod_size) (ones2 mod_size mod_size);
  if Nat.eqb ((i + 1) * mod_size) num_feats then mret W
  else
    W ← set_item W ((i + 1) * mod_size - 1) ((i + 1) * mod_size) 1;
    set_item W ((i + 1) * mod_size) ((i + 1) * mod_size - 1) 1.

(** The cell that simulates the network:
<<
    W = np.zeros((num_feats, num_feats))
    for i in range(round(num_feats/mod_size)):
        ...
    # remove the diagonal
    W = W - np.eye(num_feats)
>> *)
Definition network_cell (num_feats mod_size : nat) : Py.result matrix :=
  if Nat.eqb mod_size 0 then Py.Raise (Py.OtherError "ZeroDivisionError")
  else
    W ← for_range (network_body num_feats mod_size)
          (seq 0 (round_div num_feats mod_size)) (zeros2 num_feats num_feats);
    sub W (eye num_feats).

(** What the loop has written after [k] rounds: the diagonal block of
    module [t], and the two entries that link module [t] to the next. *)
Definition in_module (mod_size t i : nat) : bool :=
  Nat.leb (t * mod_size) i && Nat.ltb i ((t + 1) * mod_size).
Definition is_link (num_feats mod_size t i j : nat) : bool :=
  negb (Nat.eqb ((t + 1) * mod_size) num_feats)
  && Nat.eqb i ((t + 1) * mod_size - 1) && Nat.eqb j ((t + 1) * mod_size).
Definition written (num_feats mod_size k i j : nat) : bool :=
  existsb (fun t => (in_module mod_size t i && in_module mod_size t j)
                    || is_link num_feats mod_size t i j
                    || is_link num_feats mod_size t j i) (seq 0 k).

End Sim.

(** What the loop of the network cell keeps: the array is [n] by [n] and
    holds a one exactly where the first [k] rounds have written. *)
Definition loop_inv (n m k : nat) (W : Np.matrix) : Prop :=
  Np.is_array n n W /\
  forall i j, (i < n)%nat -> (j < n)%nat ->
    Np.get W i j = if Sim.written n m k i j then 1%R else 0%R.

(** ** The cells that make the phenotype and shuffle the features *)

Module Cells.
Local Open Scope R_scope.
Import Np.

(** [w[:b] = v] on a one-dimensional array. *)
Definition set_slice1 (w : vector) (b : nat) (v : vector) : Py.result vector :=
  let t := Nat.min b (length w) in
  if Sim.broadcast_to (length v) t then
    Py.Ok (mk_vector (length w) (fun i =>
             if Nat.ltb i t then vget v (bidx (length v) i) else vget w i))
  else Py.Raise (Py.ValueError "could not broadcast input array").

(** [u + v] on one-dimensional arrays. *)
Definition addv (u v : vector) : Py.result vector :=
  match broadcast (length u) (length v) with
  | Some n => Py.Ok (mk_vector n (fun i =>
                vget u (bidx (length u) i) + vget v (bidx (length v) i)))
  | None => Py.Raise (Py.ValueError "operands could not be broadcast together")
  end.

(** The names the phenotype cell binds. *)
Record phenotype : Type := mk_phenotype {
  w : vector;
  y : vector
}.

(** The cell that makes the phenotype; [w_causl] is the draw of the
    weights and [noise] the draw of [np.random.normal] in the cell:
<<
    w = np.zeros((num_feats, ))
    w[:num_causl] = w_causl
    y = np.matmul(X, w) + np.random.normal(loc=0., scale=0.1, size=(num_obsvs, ))
>> *)
Definition phenotype_cell (num_feats num_causl : nat) (X : matrix)
           (w_causl noise : vector) : Py.result phenotype :=
  w ← set_slice1 (zeros num_feats) num_causl w_causl;
  Xw ← dotv X w;
  y ← addv Xw noise;
  mret (mk_phenotype w y).

(** [dict(zip(ks, vs))]: a later pair replaces an earlier one with the
    same key. *)
Definition dict_zip (ks vs : list nat) : gmap nat nat :=
  fold_left (fun d kv => <[kv.1 := kv.2]> d) (combine ks vs) ∅.

(** [X[:, idx]] and [W[idx, :]] for a list of non-negative ints. *)
Definition take_cols (X : matrix) (idx : list nat) : Py.result matrix :=
  if forallb (fun k => Nat.ltb k (ncols X)) idx then
    Py.Ok (mk_matrix (nrows X) (length idx) (fun i k => get X i (nth k idx O)))
  else Py.Raise (Py.OtherError "IndexError").

Definition take_rows (W : matrix) (idx : list nat) : Py.result matrix :=
  if forallb (fun k => Nat.ltb k (nrows W)) idx then
    Py.Ok (mk_matrix (length idx) (ncols W) (fun k j => get W (nth k idx O) j))
  else Py.Raise (Py.OtherError "IndexError").

(** [[d[k] for k in ks]] *)
Fixpoint lookup_all (d : gmap nat nat) (ks : list nat) : Py.result (list nat) :=
  match ks with
  | [] => Py.Ok []
  | k :: ks' =>
      match d !! k with
      | Some v => vs ← lookup_all d ks'; mret (v :: vs)
      | None => Py.Raise (Py.OtherError "KeyError")
      end
  end.

(** The names the shuffling cell binds. *)
Record shuffled : Type := mk_shuffled {
  map_indices_l : list nat;
  map_indices : gmap nat nat;
  map_indices_r : gmap nat nat;
  X : matrix;
  W : matrix;
  causl : list nat
}.

(** The cell that shuffles the features; [shuffle] is what
    [np.random.shuffle] does to the list:
<<
    map_indices_l = list(range(num_feats))
    np.random.shuffle(map_indices_l)
    map_indices = dict(zip(range(num_feats), map_indices_l))
    map_indices_r = dict(zip(map_indices_l, range(num_feats)))
    X = X[:, map_indices_l]
    W_new = W[map_indices_l, :]
    W_new = W_new[:, map_indices_l]
    W = W_new
    causl = [map_indices_r[ix] for ix in range(num_causl)]
>> *)
Definition shuffle_cell (shuffle : list nat -> list nat) (num_feats num_causl : nat)
           (X W : matrix) : Py.result shuffled :=
  let map_indices_l := shuffle (seq 0 num_feats) in
  let map_indices := dict_zip (seq 0 num_feats) map_indices_l in
  let map_indices_r := dict_zip map_indices_l (seq 0 num_feats) in
  X ← take_cols X map_indices_l;
  W_new ← take_rows W map_indices_l;
  W_new ← take_cols W_new map_indices_l;
  causl ← lookup_all map_indices_r (seq 0 num_causl);
  mret (mk_shuffled map_indices_l map_indices map_indices_r X W_new causl).

End Cells.

(** ** Data of the worked examples of the simulation cells *)

Section CellsData.
Local Open Scope R_scope.

(** One observation of two features, the weight of the one causal
    feature, and the noise of the observation. *)
Definition X_small : Np.matrix := [[1; 0]].
Definition w_causl_small : Np.vector := [1 / 5].
Definition noise_small : Np.vector := [1 / 10].

(** A shuffle that reverses the list. *)
Definition shuffle_rev : list nat -> list nat := @rev nat.

End CellsData.

(** * Properties *)

(** ** Tactics for the worked examples *)

(** Case analysis on an index below 2. *)
Ltac index2 i H := destruct i as [|[|i]]; [| |exfalso; clear - H; lia].

(** Unfolding of the array operations, leaving the real arithmetic. *)
Ltac np_compute :=
  cbv -[Rplus Rminus Rmult Ropp Rdiv Rinv IZR R_sqrt.sqrt Rmax Rabs Rle_dec
        Req_dec_T Rle Rlt].

(** Equality of two arrays written out entry by entry. *)
Ltac rows_eq :=
  repeat (apply (f_equal2 cons)); try reflexivity; lra.

(** Lookup in the table of an eigensolver. *)
Ltac table_hit :=
  unfold eigh_examples, eigh_rounded, Sqrt.eigh_table;
  repeat (rewrite decide_False by (let E := fresh in intros E; injection E; intros; lra));
  rewrite decide_True by reflexivity; reflexivity.

(** Evaluation of [Rabs] and [Rmax] on closed arithmetic, innermost first. *)
Ltac real_eval :=
  repeat match goal with
         | |- context [Rabs ?a] =>
             first [ replace (Rabs a) with 0%R
                       by (replace a with 0%R by lra; symmetry; apply Rabs_R0)
                   | replace (Rabs a) with 1%R
                       by (replace a with 1%R by lra; symmetry; apply Rabs_R1) ]
         end;
  repeat match goal with
         | |- context [Rmax ?a ?b] =>
             first [ rewrite (Rmax_left a b) by lra
                   | rewrite (Rmax_right a b) by lra ]
         end.

(** ** Finite sums *)

Section BigSumLemmas.
Local Open Scope R_scope.

Lemma big_sum_ext (n : nat) (f g : nat -> R) :
  (forall i, (i < n)%nat -> f i = g i) -> big_sum n f = big_sum n g.
Proof.
  induction n as [|n IH]; intros H; simpl; [reflexivity|].
  rewrite IH, (H n) by (intros; try apply H; lia). reflexivity.
Qed.

Lemma big_sum_zero (n : nat) : big_sum n (fun _ => 0) = 0.
Proof. induction n as [|n IH]; simpl; [reflexivity|]. rewrite IH. lra. Qed.

Lemma big_sum_plus (n : nat) (f g : nat -> R) :
  big_sum n (fun i => f i + g i) = big_sum n f + big_sum n g.
Proof. induction n as [|n IH]; simpl; [lra|]. rewrite IH. lra. Qed.

Lemma big_sum_minus (n : nat) (f g : nat -> R) :
  big_sum n (fun i => f i - g i) = big_sum n f - big_sum n g.
Proof. induction n as [|n IH]; simpl; [lra|]. rewrite IH. lra. Qed.

Lemma big_sum_scal_l (n : nat) (c : R) (f : nat -> R) :
  big_sum n (fun i => c * f i) = c * big_sum n f.
Proof. induction n as [|n IH]; simpl; [lra|]. rewrite IH. lra. Qed.

Lemma big_sum_scal_r (n : nat) (c : R) (f : nat -> R) :
  big_sum n (fun i => f i * c) = big_sum n f * c.
Proof. induction n as [|n IH]; simpl; [lra|]. rewrite IH. lra. Qed.

Lemma big_sum_nonneg (n : nat) (f : nat -> R) :
  (forall i, (i < n)%nat -> 0 <= f i) -> 0 <= big_sum n f.
Proof.
  induction n as [|n IH]; intros H; simpl; [lra|].
  assert (0 <= big_sum n f) by (apply IH; intros; apply H; lia).
  assert (0 <= f n) by (apply H; lia). lra.
Qed.

(** Exchange of two finite sums. *)
Lemma big_sum_swap (m n : nat) (f : nat -> nat -> R) :
  big_sum m (fun i => big_sum n (fun j => f i j))
  = big_sum n (fun j => big_sum m (fun i => f i j)).
Proof.
  induction m as [|m IH]; simpl.
  - symmetry. apply big_sum_zero.
  - rewrite IH, <- big_sum_plus. reflexivity.
Qed.

(** A sum against the indicator of one index picks that term. *)
Lemma big_sum_delta (n k : nat) (f : nat -> R) :
  (k < n)%nat ->
  big_sum n (fun i => if Nat.eqb i k then f i else 0) = f k.
Proof.
  induction n as [|n IH]; intros Hk; [lia|]. simpl.
  destruct (Nat.eqb_spec n k) as [->|Hne].
  - rewrite (big_sum_ext k _ (fun _ => 0)).
    + rewrite big_sum_zero. lra.
    + intros i Hi. destruct (Nat.eqb_spec i k); [lia|reflexivity].
  - rewrite IH by lia. lra.
Qed.

Lemma big_sum_delta' (n k : nat) (f : nat -> R) :
  (k < n)%nat ->
  big_sum n (fun i => if Nat.eqb k i then f i else 0) = f k.
Proof.
  intros Hk. rewrite <- (big_sum_delta n k f Hk).
  apply big_sum_ext. intros i _. rewrite Nat.eqb_sym. reflexivity.
Qed.

End BigSumLemmas.

(** ** Arrays *)

Section ArrayLemmas.
Local Open Scope R_scope.
Import Np.

Lemma length_mk_vector (n : nat) (f : nat -> R) : length (mk_vector n f) = n.
Proof. unfold mk_vector. rewrite length_map, length_seq. reflexivity. Qed.

Lemma vget_mk_vector (n : nat) (f : nat -> R) (i : nat) :
  (i < n)%nat -> vget (mk_vector n f) i = f i.
Proof.
  intros Hi. unfold vget, mk_vector.
  rewrite (nth_indep _ 0 (f O)) by (rewrite length_map, length_seq; lia).
  rewrite map_nth, seq_nth by lia. reflexivity.
Qed.

Lemma nrows_mk_matrix (m n : nat) (f : nat -> nat -> R) :
  nrows (mk_matrix m n f) = m.
Proof. unfold nrows, mk_matrix. rewrite length_map, length_seq. reflexivity. Qed.

Lemma nth_mk_matrix (m n : nat) (f : nat -> nat -> R) (i : nat) :
  (i < m)%nat -> nth i (mk_matrix m n f) [] = mk_vector n (f i).
Proof.
  intros Hi. unfold mk_matrix.
  rewrite (nth_indep _ [] (mk_vector n (f O))) by (rewrite length_map, length_seq; lia).
  rewrite (map_nth (fun i => mk_vector n (f i))), seq_nth by lia. reflexivity.
Qed.

Lemma get_mk_matrix (m n : nat) (f : nat -> nat -> R) (i j : nat) :
  (i < m)%nat -> (j < n)%nat -> get (mk_matrix m n f) i j = f i j.
Proof.
  intros Hi Hj. unfold get. rewrite nth_mk_matrix by assumption.
  apply (vget_mk_vector n (f i) j Hj).
Qed.

Lemma ncols_mk_matrix (m n : nat) (f : nat -> nat -> R) :
  (0 < m)%nat -> ncols (mk_matrix m n f) = n.
Proof.
  intros Hm. unfold ncols. destruct m as [|m]; [lia|].
  unfold mk_matrix. simpl. apply length_mk_vector.
Qed.

Lemma is_array_mk_matrix (m n : nat) (f : nat -> nat -> R) :
  is_array m n (mk_matrix m n f).
Proof.
  split; [apply nrows_mk_matrix|].
  unfold mk_matrix. apply List.Forall_forall. intros row Hin.
  apply in_map_iff in Hin. destruct Hin as (i & <- & _). apply length_mk_vector.
Qed.

Lemma is_array_nrows (m n : nat) (A : matrix) : is_array m n A -> nrows A = m.
Proof. intros [H _]. exact H. Qed.

Lemma is_array_ncols (m n : nat) (A : matrix) :
  (0 < m)%nat -> is_array m n A -> ncols A = n.
Proof.
  intros Hm [Hl Hr]. unfold ncols. destruct A as [|r A]; simpl in *; [lia|].
  inversion Hr; assumption.
Qed.

Lemma is_array_row (m n : nat) (A : matrix) (i : nat) :
  is_array m n A -> (i < m)%nat -> length (nth i A []) = n.
Proof.
  intros [Hl Hr] Hi. rewrite List.Forall_forall in Hr. apply Hr, nth_In. lia.
Qed.

(** Two arrays of one shape with the same entries are the same array. *)
Lemma vector_ext (n : nat) (u v : vector) :
  length u = n -> length v = n ->
  (forall i, (i < n)%nat -> vget u i = vget v i) -> u = v.
Proof.
  intros Hu Hv H. apply (nth_ext u v 0 0); [lia|].
  intros i Hi. apply H. lia.
Qed.

Lemma array_ext (m n : nat) (A B : matrix) :
  is_array m n A -> is_array m n B ->
  (forall i j, (i < m)%nat -> (j < n)%nat -> get A i j = get B i j) -> A = B.
Proof.
  intros HA HB H. apply (nth_ext A B [] []).
  - destruct HA, HB. lia.
  - intros i Hi. assert (Hm : (i < m)%nat) by (destruct HA; lia).
    apply (vector_ext n); [apply (is_array_row m n A i HA Hm)
                          |apply (is_array_row m n B i HB Hm)|].
    intros j Hj. apply (H i j Hm Hj).
Qed.

Lemma broadcast_same (a : nat) : broadcast a a = Some a.
Proof. unfold broadcast. rewrite Nat.eqb_refl. reflexivity. Qed.

End ArrayLemmas.

(** ** The Laplacian *)

Section LaplacianLemmas.
Local Open Scope R_scope.
Import Np.

Lemma mk_matrix_ext (m n : nat) (f g : nat -> nat -> R) :
  (forall i j, (i < m)%nat -> (j < n)%nat -> f i j = g i j) ->
  mk_matrix m n f = mk_matrix m n g.
Proof.
  intros H. apply (array_ext m n); try apply is_array_mk_matrix.
  intros i j Hi Hj. rewrite !get_mk_matrix by assumption. apply H; assumption.
Qed.

Lemma is_array_ncols_sq (p : nat) (A : matrix) : is_array p p A -> ncols A = p.
Proof.
  intros HA. destruct p as [|p].
  - destruct HA as [Hl _]. destruct A; [reflexivity|discriminate].
  - apply (is_array_ncols (S p)); [lia|assumption].
Qed.

Lemma bidx_lt (a i : nat) : (i < a)%nat -> bidx a i = i.
Proof. unfold bidx. intros Hi. destruct (Nat.eqb_spec a 1); lia. Qed.

(** [A - B] on two arrays of one square shape is the entrywise difference. *)
Lemma sub_square (p : nat) (A B : matrix) :
  is_array p p A -> is_array p p B ->
  sub A B = Py.Ok (mk_matrix p p (fun i j => get A i j - get B i j)).
Proof.
  intros HA HB. unfold sub.
  rewrite (is_array_nrows p p A HA), (is_array_nrows p p B HB).
  rewrite (is_array_ncols_sq p A HA), (is_array_ncols_sq p B HB).
  rewrite broadcast_same. f_equal. apply mk_matrix_ext.
  intros i j Hi Hj. rewrite !bidx_lt by assumption. reflexivity.
Qed.

Lemma laplacian_square (p : nat) (W : matrix) :
  is_array p p W ->
  Sqrt.laplacian W = Py.Ok (mk_matrix p p (laplacian_entry p W)).
Proof.
  intros HW. unfold Sqrt.laplacian.
  assert (Hd : is_array p p (diag (sum_axis0 W))).
  { unfold diag, sum_axis0. rewrite length_mk_vector, (is_array_ncols_sq p W HW).
    apply is_array_mk_matrix. }
  rewrite (sub_square p _ _ Hd HW). f_equal. apply mk_matrix_ext.
  intros i j Hi Hj. unfold laplacian_entry, diag, sum_axis0.
  rewrite length_mk_vector, (is_array_ncols_sq p W HW), (is_array_nrows p p W HW).
  rewrite get_mk_matrix by assumption.
  destruct (Nat.eqb i j); [|reflexivity].
  rewrite vget_mk_vector by assumption. reflexivity.
Qed.

(** Every row of the Laplacian of a symmetric matrix sums to zero. *)
Lemma laplacian_row_sum (p : nat) (W : matrix) (i : nat) :
  Sqrt.symmetric p W -> (i < p)%nat ->
  big_sum p (fun j => laplacian_entry p W i j) = 0.
Proof.
  intros Hs Hi. unfold laplacian_entry.
  rewrite big_sum_minus.
  rewrite (big_sum_delta' p i (fun _ => big_sum p (fun k => get W k i)) Hi).
  rewrite (big_sum_ext p (fun k => get W k i) (fun j => get W i j)).
  - apply Rminus_diag_eq. reflexivity.
  - intros k Hk. apply Hs; assumption.
Qed.

(** The quadratic form of the Laplacian is half the weighted sum of the
    squared differences over the pairs of nodes. *)
Lemma laplacian_quadratic (p : nat) (W : matrix) (x : nat -> R) :
  Sqrt.symmetric p W ->
  2 * big_sum p (fun i => big_sum p (fun j => x i * laplacian_entry p W i j * x j))
  = big_sum p (fun i => big_sum p (fun j => get W i j * (x i - x j) * (x i - x j))).
Proof.
  intros Hs.
  set (B := big_sum p (fun i => big_sum p (fun j => get W i j * x i * x j))).
  set (A1 := big_sum p (fun i => big_sum p (fun j => get W i j * x i * x i))).
  set (A2 := big_sum p (fun i => big_sum p (fun j => get W i j * x j * x j))).
  assert (HQ : big_sum p (fun i => big_sum p (fun j => x i * laplacian_entry p W i j * x j))
               = big_sum p (fun i => x i * x i * big_sum p (fun k => get W k i)) - B).
  { unfold B. rewrite <- big_sum_minus. apply big_sum_ext. intros i Hi.
    unfold laplacian_entry.
    rewrite (big_sum_ext p _ (fun j =>
      (if Nat.eqb i j then x i * big_sum p (fun k => get W k i) * x j else 0)
      - get W i j * x i * x j)).
    - rewrite big_sum_minus.
      rewrite (big_sum_delta' p i (fun j => x i * big_sum p (fun k => get W k i) * x j) Hi).
      lra.
    - intros j Hj. destruct (Nat.eqb i j); lra. }
  assert (H1 : big_sum p (fun i => x i * x i * big_sum p (fun k => get W k i)) = A1).
  { unfold A1. apply big_sum_ext. intros i Hi.
    rewrite <- big_sum_scal_l. apply big_sum_ext. intros k Hk.
    rewrite (Hs k i Hk Hi). lra. }
  assert (H2 : big_sum p (fun i => x i * x i * big_sum p (fun k => get W k i)) = A2).
  { unfold A2. rewrite (big_sum_swap p p (fun i j => get W i j * x j * x j)).
    apply big_sum_ext. intros i Hi.
    rewrite <- big_sum_scal_l. apply big_sum_ext. intros k Hk. lra. }
  assert (HR : big_sum p (fun i => big_sum p (fun j => get W i j * (x i - x j) * (x i - x j)))
               = A1 + A2 - 2 * B).
  { unfold A1, A2, B.
    rewrite <- big_sum_plus, <- big_sum_scal_l, <- big_sum_minus.
    apply big_sum_ext. intros i Hi.
    rewrite <- big_sum_plus, <- big_sum_scal_l, <- big_sum_minus.
    apply big_sum_ext. intros j Hj. lra. }
  rewrite HR, HQ. rewrite <- H1 at 1. rewrite <- H2. lra.
Qed.

Lemma laplacian_psd (p : nat) (W : matrix) (x : nat -> R) :
  Sqrt.symmetric p W -> Sqrt.nonnegative p W ->
  0 <= big_sum p (fun i => big_sum p (fun j => x i * laplacian_entry p W i j * x j)).
Proof.
  intros Hs Hn.
  assert (H : 0 <= big_sum p (fun i => big_sum p (fun j =>
                 get W i j * (x i - x j) * (x i - x j)))).
  { apply big_sum_nonneg. intros i Hi. apply big_sum_nonneg. intros j Hj.
    specialize (Hn i j Hi Hj). rewrite Rmult_assoc.
    apply Rmult_le_pos; [assumption|]. apply (Rle_0_sqr (x i - x j)). }
  apply (Rmult_le_reg_l 2); [lra|].
  rewrite Rmult_0_r, (laplacian_quadratic p W x Hs). exact H.
Qed.

(** A sum of squares that vanishes has only zero terms. *)
Lemma big_sum_squares_zero (n : nat) (f : nat -> R) :
  big_sum n (fun i => f i * f i) = 0 -> forall i, (i < n)%nat -> f i = 0.
Proof.
  induction n as [|n IH]; intros H i Hi; [lia|]. simpl in H.
  assert (Hs : 0 <= big_sum n (fun i => f i * f i))
    by (apply big_sum_nonneg; intros k _; apply (Rle_0_sqr (f k))).
  assert (Hn : 0 <= f n * f n) by apply (Rle_0_sqr (f n)).
  destruct (Nat.eq_dec i n) as [->|Hne].
  - apply Rsqr_0_uniq. unfold Rsqr. lra.
  - apply IH; [lra|lia].
Qed.

End LaplacianLemmas.

Section LaplacianInvariant.
Local Open Scope R_scope.
Import Np.

Lemma mk_vector_ext (n : nat) (f g : nat -> R) :
  (forall i, (i < n)%nat -> f i = g i) -> mk_vector n f = mk_vector n g.
Proof.
  intros H. apply (vector_ext n); try apply length_mk_vector.
  intros i Hi. rewrite !vget_mk_vector by assumption. apply H; assumption.
Qed.

Lemma dotv_square (p : nat) (A : matrix) (v : vector) :
  is_array p p A -> length v = p ->
  dotv A v = Py.Ok (mk_vector p (fun i => big_sum p (fun k => get A i k * vget v k))).
Proof.
  intros HA Hv. unfold dotv.
  rewrite (is_array_ncols_sq p A HA), (is_array_nrows p p A HA), Hv, Nat.eqb_refl.
  reflexivity.
Qed.

Lemma vget_map (f : R -> R) (v : vector) (i : nat) :
  (i < length v)%nat -> vget (map f v) i = f (vget v i).
Proof.
  intros Hi. unfold vget.
  rewrite (nth_indep _ 0 (f 0)) by (rewrite length_map; lia).
  apply map_nth.
Qed.

(** C3. For a symmetric, non-negative [p] by [p] matrix [W] with zero
    diagonal, the Laplacian [L = np.diag(np.sum(W, axis=0)) - W] is built
    without error, [L] times the all-ones vector is the zero vector, and
    [L] is positive semidefinite: its quadratic form is non-negative and so
    is every eigenvalue. *)
Theorem laplacian_invariant (p : nat) (W : matrix) :
  Sqrt.adjacency p W ->
  exists L : matrix,
    Sqrt.laplacian W = Py.Ok L /\ is_array p p L /\
    dotv L (ones p) = Py.Ok (zeros p) /\
    (forall x : vector, length x = p -> 0 <= Sqrt.quadratic_form p L x) /\
    (forall (lam : R) (v : vector),
       length v = p -> (exists i, (i < p)%nat /\ vget v i <> 0) ->
       dotv L v = Py.Ok (map (Rmult lam) v) -> 0 <= lam).
Proof.
  intros (HW & Hs & Hn & _).
  exists (mk_matrix p p (laplacian_entry p W)).
  assert (HL : is_array p p (mk_matrix p p (laplacian_entry p W)))
    by apply is_array_mk_matrix.
  assert (Hq : forall x : vector,
             Sqrt.quadratic_form p (mk_matrix p p (laplacian_entry p W)) x
             = big_sum p (fun i => big_sum p (fun j =>
                 vget x i * laplacian_entry p W i j * vget x j))).
  { intros x. unfold Sqrt.quadratic_form. apply big_sum_ext. intros i Hi.
    apply big_sum_ext. intros j Hj. rewrite get_mk_matrix by assumption.
    reflexivity. }
  split; [apply laplacian_square; assumption|].
  split; [assumption|].
  split; [|split].
  - rewrite (dotv_square p) by (try assumption; apply length_mk_vector).
    unfold zeros. f_equal. apply mk_vector_ext. intros i Hi.
    rewrite <- (laplacian_row_sum p W i Hs Hi). apply big_sum_ext. intros k Hk.
    unfold ones. rewrite get_mk_matrix, vget_mk_vector by assumption. lra.
  - intros x Hx. rewrite Hq. apply laplacian_psd; assumption.
  - intros lam v Hv (i0 & Hi0 & Hne) Hdot.
    rewrite (dotv_square p) in Hdot by assumption.
    assert (Hrow : forall i, (i < p)%nat ->
              big_sum p (fun k => laplacian_entry p W i k * vget v k) = lam * vget v i).
    { intros i Hi. injection Hdot as Hdot.
      assert (E : vget (mk_vector p (fun i => big_sum p (fun k =>
                    get (mk_matrix p p (laplacian_entry p W)) i k * vget v k))) i
                  = vget (map (Rmult lam) v) i) by (rewrite Hdot; reflexivity).
      rewrite vget_mk_vector, vget_map in E by lia. rewrite <- E.
      apply big_sum_ext. intros k Hk. rewrite get_mk_matrix by assumption.
      reflexivity. }
    set (s := big_sum p (fun i => vget v i * vget v i)).
    assert (Hs0 : 0 <= s)
      by (apply big_sum_nonneg; intros k _; apply (Rle_0_sqr (vget v k))).
    assert (Hspos : 0 < s).
    { destruct (Req_dec s 0) as [Hz|Hnz]; [|lra].
      exfalso. apply Hne. apply (big_sum_squares_zero p (vget v) Hz i0 Hi0). }
    assert (Hform : Sqrt.quadratic_form p (mk_matrix p p (laplacian_entry p W)) v
                    = lam * s).
    { rewrite Hq. unfold s. rewrite <- big_sum_scal_l. apply big_sum_ext.
      intros i Hi.
      rewrite (big_sum_ext p _ (fun j =>
                 vget v i * (laplacian_entry p W i j * vget v j)))
        by (intros; lra).
      rewrite big_sum_scal_l, (Hrow i Hi). lra. }
    assert (Hpsd : 0 <= lam * s)
      by (rewrite <- Hform, Hq; apply laplacian_psd; assumption).
    destruct (Rle_dec 0 lam) as [|Hneg]; [assumption|].
    exfalso. assert (0 < (- lam) * s) by (apply Rmult_lt_0_compat; lra).
    lra.
Qed.

End LaplacianInvariant.

(** ** The square root *)

Section SpectralLemmas.
Local Open Scope R_scope.
Import Np.

Lemma vget_sqrt_maximum (ev : vector) (k : nat) :
  (k < length ev)%nat ->
  vget (sqrt (maximum 0 ev)) k = R_sqrt.sqrt (Rmax 0 (vget ev k)).
Proof.
  intros Hk. unfold sqrt, maximum.
  rewrite vget_map by (rewrite length_map; assumption).
  rewrite vget_map by assumption. reflexivity.
Qed.

Lemma length_sqrt_maximum (ev : vector) : length (sqrt (maximum 0 ev)) = length ev.
Proof. unfold sqrt, maximum. rewrite !length_map. reflexivity. Qed.

Lemma is_array_T (p : nat) (A : matrix) : is_array p p A -> is_array p p (T A).
Proof.
  intros HA. unfold T.
  rewrite (is_array_ncols_sq p A HA), (is_array_nrows p p A HA).
  apply is_array_mk_matrix.
Qed.

Lemma get_T (p : nat) (A : matrix) (i j : nat) :
  is_array p p A -> (i < p)%nat -> (j < p)%nat -> get (T A) i j = get A j i.
Proof.
  intros HA Hi Hj. unfold T.
  rewrite (is_array_ncols_sq p A HA), (is_array_nrows p p A HA).
  rewrite get_mk_matrix by assumption. reflexivity.
Qed.

Lemma dot_square (p : nat) (A B : matrix) :
  is_array p p A -> is_array p p B ->
  dot A B = Py.Ok (mk_matrix p p (fun i j =>
              big_sum p (fun k => get A i k * get B k j))).
Proof.
  intros HA HB. unfold dot.
  rewrite (is_array_ncols_sq p A HA), (is_array_nrows p p A HA).
  rewrite (is_array_ncols_sq p B HB), (is_array_nrows p p B HB).
  rewrite Nat.eqb_refl. reflexivity.
Qed.

(** The last line of the cell, for eigenvalues and eigenvectors of the
    right shapes. *)
Lemma sqrt_product (p : nat) (ev : vector) (U : matrix) :
  length ev = p -> is_array p p U ->
  dot (diag (sqrt (maximum 0 ev))) (T U)
  = Py.Ok (mk_matrix p p (sqrt_entry ev U)).
Proof.
  intros Hev HU.
  assert (Hd : is_array p p (diag (sqrt (maximum 0 ev)))).
  { unfold diag. rewrite length_sqrt_maximum, Hev. apply is_array_mk_matrix. }
  rewrite (dot_square p _ _ Hd (is_array_T p U HU)). f_equal.
  apply mk_matrix_ext. intros k i Hk Hi. unfold sqrt_entry.
  rewrite (big_sum_ext p _ (fun l =>
             if Nat.eqb k l then R_sqrt.sqrt (Rmax 0 (vget ev k)) * get U i l else 0)).
  - apply (big_sum_delta' p k (fun l => R_sqrt.sqrt (Rmax 0 (vget ev k)) * get U i l) Hk).
  - intros l Hl. rewrite (get_T p U l i HU Hl Hi). unfold diag.
    rewrite length_sqrt_maximum, Hev, get_mk_matrix by assumption.
    destruct (Nat.eqb k l); [|lra].
    rewrite vget_sqrt_maximum by lia. reflexivity.
Qed.

(** The whole cell, given what the eigensolver returns on [L]. *)
Lemma sqrt_cell_value (eigh : Sqrt.eigensolver) (p : nat) (W : matrix)
      (ev : vector) (U : matrix) :
  is_array p p W ->
  eigh (mk_matrix p p (laplacian_entry p W)) = Py.Ok (ev, U) ->
  length ev = p -> is_array p p U ->
  Sqrt.sqrt_cell eigh W
  = Py.Ok (Sqrt.mk_env (sum_axis0 W) (mk_matrix p p (laplacian_entry p W))
             (maximum 0 ev) U (mk_matrix p p (sqrt_entry ev U))).
Proof.
  intros HW He Hev HU. unfold Sqrt.sqrt_cell.
  pose proof (laplacian_square p W HW) as HL. unfold Sqrt.laplacian in HL.
  rewrite HL. simpl. rewrite He. simpl.
  rewrite (sqrt_product p ev U Hev HU). reflexivity.
Qed.

(** The Gram matrix [S.T S] of an array of the shape of [S]. *)
Lemma gram_square (p : nat) (A : matrix) :
  is_array p p A ->
  matmul (T A) A = Py.Ok (mk_matrix p p (fun i j =>
                     big_sum p (fun k => get A k i * get A k j))).
Proof.
  intros HA. unfold matmul.
  rewrite (dot_square p _ _ (is_array_T p A HA) HA). f_equal.
  apply mk_matrix_ext. intros i j Hi Hj. apply big_sum_ext. intros k Hk.
  rewrite (get_T p A i k HA Hi Hk). reflexivity.
Qed.

Lemma gram_sqrt (p : nat) (ev : vector) (U : matrix) :
  matmul (T (mk_matrix p p (sqrt_entry ev U))) (mk_matrix p p (sqrt_entry ev U))
  = Py.Ok (mk_matrix p p (fun i j =>
             big_sum p (fun k => get U i k * Rmax 0 (vget ev k) * get U j k))).
Proof.
  rewrite (gram_square p) by apply is_array_mk_matrix. f_equal.
  apply mk_matrix_ext. intros i j Hi Hj. apply big_sum_ext. intros k Hk.
  rewrite !get_mk_matrix by assumption. unfold sqrt_entry.
  assert (Hs : R_sqrt.sqrt (Rmax 0 (vget ev k)) * R_sqrt.sqrt (Rmax 0 (vget ev k))
               = Rmax 0 (vget ev k)) by (apply sqrt_sqrt, Rmax_l).
  set (r := R_sqrt.sqrt (Rmax 0 (vget ev k))) in *.
  replace (r * get U i k * (r * get U j k)) with (get U i k * (r * r) * get U j k)
    by lra.
  rewrite Hs. reflexivity.
Qed.

End SpectralLemmas.

Section EigenLemmas.
Local Open Scope R_scope.
Import Np.

(** With orthonormal columns [u] and [a = u diag(e) u.T], the eigenvalue
    [e k] is the quadratic form of [a] at the [k]-th column. *)
Lemma rayleigh (p : nat) (u a : nat -> nat -> R) (e : nat -> R) (k : nat) :
  (k < p)%nat ->
  (forall k l, (k < p)%nat -> (l < p)%nat ->
     big_sum p (fun i => u i k * u i l) = if Nat.eqb k l then 1 else 0) ->
  (forall i j, (i < p)%nat -> (j < p)%nat ->
     a i j = big_sum p (fun l => u i l * e l * u j l)) ->
  big_sum p (fun i => big_sum p (fun j => u i k * a i j * u j k)) = e k.
Proof.
  intros Hk Ho Ha.
  rewrite (big_sum_ext p _ (fun i => u i k * u i k * e k)).
  - rewrite big_sum_scal_r, (Ho k k Hk Hk), Nat.eqb_refl. lra.
  - intros i Hi.
    rewrite (big_sum_ext p _ (fun j =>
               big_sum p (fun l => (u i k * u i l * e l) * (u j l * u j k)))).
    + rewrite big_sum_swap.
      rewrite (big_sum_ext p _ (fun l =>
                 if Nat.eqb l k then u i k * u i l * e l else 0)).
      * apply (big_sum_delta p k (fun l => u i k * u i l * e l) Hk).
      * intros l Hl. rewrite big_sum_scal_l, (Ho l k Hl Hk).
        destruct (Nat.eqb l k); lra.
    + intros j Hj. rewrite (Ha i j Hi Hj).
      rewrite <- big_sum_scal_l, <- big_sum_scal_r.
      apply big_sum_ext. intros l Hl. lra.
Qed.

Lemma laplacian_entry_sym (p : nat) (W : matrix) (i j : nat) :
  Sqrt.symmetric p W -> (i < p)%nat -> (j < p)%nat ->
  laplacian_entry p W i j = laplacian_entry p W j i.
Proof.
  intros Hs Hi Hj. unfold laplacian_entry. rewrite (Hs i j Hi Hj).
  destruct (Nat.eqb_spec i j) as [->|Hne].
  - rewrite Nat.eqb_refl. reflexivity.
  - destruct (Nat.eqb_spec j i); [congruence|reflexivity].
Qed.

Lemma lower_sym_laplacian (p : nat) (W : matrix) (i j : nat) :
  Sqrt.symmetric p W -> (i < p)%nat -> (j < p)%nat ->
  Sqrt.lower_sym (mk_matrix p p (laplacian_entry p W)) i j = laplacian_entry p W i j.
Proof.
  intros Hs Hi Hj. unfold Sqrt.lower_sym.
  rewrite get_mk_matrix by lia.
  destruct (Nat.le_ge_cases i j) as [Hle|Hge].
  - rewrite Nat.max_r, Nat.min_l by assumption.
    apply laplacian_entry_sym; assumption.
  - rewrite Nat.max_l, Nat.min_r by assumption. reflexivity.
Qed.

(** The exact eigenvalues of the Laplacian of an adjacency matrix are
    non-negative, so clamping leaves them as they are. *)
Lemma eigenvalue_nonneg (p : nat) (W : matrix) (ev : vector) (U : matrix) (k : nat) :
  Sqrt.symmetric p W -> Sqrt.nonnegative p W ->
  Sqrt.eigen_decomposition p (mk_matrix p p (laplacian_entry p W)) ev U ->
  (k < p)%nat -> 0 <= vget ev k.
Proof.
  intros Hs Hn (_ & _ & Ho & Hd) Hk.
  rewrite <- (rayleigh p (get U) (laplacian_entry p W) (vget ev) k Hk Ho).
  - apply laplacian_psd; assumption.
  - intros i j Hi Hj. rewrite <- (lower_sym_laplacian p W i j Hs Hi Hj).
    apply Hd; assumption.
Qed.

Lemma abs_mk_matrix (m n : nat) (f : nat -> nat -> R) :
  abs (mk_matrix m n f) = mk_matrix m n (fun i j => Rabs (f i j)).
Proof.
  unfold abs, mk_matrix, mk_vector. rewrite map_map.
  apply map_ext. intros i. apply map_map.
Qed.

Lemma concat_zeros2 (m n : nat) : concat (zeros2 m n) = repeat 0 (m * n).
Proof.
  assert (Hrow : forall l : list nat, map (fun _ => 0) l = repeat 0 (length l)).
  { induction l as [|x l IH]; simpl; [reflexivity|]. rewrite IH. reflexivity. }
  assert (Hrows : forall l : list nat,
             concat (map (fun _ => mk_vector n (fun _ => 0)) l)
             = repeat 0 (length l * n)).
  { induction l as [|x l IH]; simpl; [reflexivity|].
    rewrite IH, repeat_app. unfold mk_vector. rewrite Hrow, length_seq.
    reflexivity. }
  unfold zeros2, mk_matrix. rewrite Hrows, length_seq. reflexivity.
Qed.

Lemma max_zeros2 (m n : nat) :
  (0 < m)%nat -> (0 < n)%nat -> max (zeros2 m n) = Py.Ok 0.
Proof.
  intros Hm Hn. unfold max. rewrite concat_zeros2.
  destruct (m * n)%nat as [|k] eqn:E; [nia|]. simpl. f_equal.
  clear E. induction k as [|k IH]; simpl; [reflexivity|].
  rewrite Rmax_left by lra. exact IH.
Qed.

(** When the Gram matrix of [S] has the entries of [L], the number that
    the checking cell prints is zero. *)
Lemma check_cell_zero (p : nat) (S L : matrix) :
  (0 < p)%nat -> is_array p p S -> is_array p p L ->
  (forall i j, (i < p)%nat -> (j < p)%nat ->
     big_sum p (fun k => get S k i * get S k j) = get L i j) ->
  Sqrt.check_cell S L = Py.Ok 0.
Proof.
  intros Hp HS HL H. unfold Sqrt.check_cell.
  rewrite (gram_square p S HS). simpl.
  rewrite (sub_square p _ L (is_array_mk_matrix p p _) HL). simpl.
  rewrite abs_mk_matrix.
  rewrite (mk_matrix_ext p p _ (fun _ _ => 0)).
  - apply (max_zeros2 p p Hp Hp).
  - intros i j Hi Hj. rewrite get_mk_matrix, (H i j Hi Hj) by assumption.
    rewrite Rminus_diag_eq by reflexivity. apply Rabs_R0.
Qed.

End EigenLemmas.

Section SquareRootCorrect.
Local Open Scope R_scope.
Import Np.

Lemma is_array_laplacian (p : nat) (W L : matrix) :
  is_array p p W -> Sqrt.laplacian W = Py.Ok L ->
  L = mk_matrix p p (laplacian_entry p W).
Proof.
  intros HW HL. rewrite (laplacian_square p W HW) in HL. congruence.
Qed.

(** C2. For a symmetric, non-negative [p] by [p] adjacency matrix [W]
    with zero diagonal, and an eigensolver that returns an exact
    eigen-decomposition of [L], the cell returns
    [S = diag(sqrt(clamped eigenvalues)) U.T] of shape [p] by [p] with
    [S.T S = L]; the number the checking cell prints, the largest absolute
    entry of [S.T S - L], is zero and so below every positive tolerance. *)
Theorem spectral_sqrt_correct (eigh : Sqrt.eigensolver) (p : nat) (W : matrix)
        (ev : vector) (U : matrix) :
  (0 < p)%nat -> Sqrt.adjacency p W ->
  (forall L, Sqrt.laplacian W = Py.Ok L ->
     eigh L = Py.Ok (ev, U) /\ Sqrt.eigen_decomposition p L ev U) ->
  exists env : Sqrt.cell_env,
    Sqrt.sqrt_cell eigh W = Py.Ok env /\
    Sqrt.laplacian W = Py.Ok (Sqrt.L env) /\
    is_array p p (Sqrt.S env) /\
    dot (diag (sqrt (maximum 0 ev))) (T U) = Py.Ok (Sqrt.S env) /\
    matmul (T (Sqrt.S env)) (Sqrt.S env) = Py.Ok (Sqrt.L env) /\
    Sqrt.check_cell (Sqrt.S env) (Sqrt.L env) = Py.Ok 0 /\
    (forall tol, 0 < tol ->
       exists d, Sqrt.check_cell (Sqrt.S env) (Sqrt.L env) = Py.Ok d /\ d < tol).
Proof.
  intros Hp (HW & Hs & Hn & _) Heig.
  destruct (Heig _ (laplacian_square p W HW)) as [He Hdec].
  pose proof Hdec as (Hev & HU & Ho & Hd).
  assert (Hgram : forall i j, (i < p)%nat -> (j < p)%nat ->
            big_sum p (fun k => get U i k * Rmax 0 (vget ev k) * get U j k)
            = laplacian_entry p W i j).
  { intros i j Hi Hj. rewrite <- (lower_sym_laplacian p W i j Hs Hi Hj).
    rewrite (Hd i j Hi Hj). apply big_sum_ext. intros k Hk.
    rewrite Rmax_right; [reflexivity|].
    apply (eigenvalue_nonneg p W ev U k Hs Hn Hdec Hk). }
  assert (HG : matmul (T (mk_matrix p p (sqrt_entry ev U)))
                 (mk_matrix p p (sqrt_entry ev U))
               = Py.Ok (mk_matrix p p (laplacian_entry p W))).
  { rewrite gram_sqrt. f_equal. apply mk_matrix_ext. exact Hgram. }
  assert (HC : Sqrt.check_cell (mk_matrix p p (sqrt_entry ev U))
                 (mk_matrix p p (laplacian_entry p W)) = Py.Ok 0).
  { apply (check_cell_zero p); try apply is_array_mk_matrix; [assumption|].
    intros i j Hi Hj. rewrite (get_mk_matrix p p (laplacian_entry p W)) by assumption.
    rewrite <- (Hgram i j Hi Hj). apply big_sum_ext. intros k Hk.
    rewrite !get_mk_matrix by assumption. unfold sqrt_entry.
    assert (Hq : R_sqrt.sqrt (Rmax 0 (vget ev k)) * R_sqrt.sqrt (Rmax 0 (vget ev k))
                 = Rmax 0 (vget ev k)) by (apply sqrt_sqrt, Rmax_l).
    set (r := R_sqrt.sqrt (Rmax 0 (vget ev k))) in *.
    replace (r * get U i k * (r * get U j k)) with (get U i k * (r * r) * get U j k)
      by lra.
    rewrite Hq. reflexivity. }
  eexists. split; [apply (sqrt_cell_value eigh p W ev U HW He Hev HU)|]. simpl.
  split; [apply laplacian_square; assumption|].
  split; [apply is_array_mk_matrix|].
  split; [apply sqrt_product; assumption|].
  split; [exact HG|].
  split; [exact HC|].
  intros tol Htol. exists 0. split; [exact HC|exact Htol].
Qed.

End SquareRootCorrect.

(** ** The worked examples *)

Section Examples.
Local Open Scope R_scope.
Import Np.

Lemma sqrt2_sqr : R_sqrt.sqrt 2 * R_sqrt.sqrt 2 = 2.
Proof. apply sqrt_sqrt. lra. Qed.

Lemma is_array_2_2 (a b c d : R) : is_array 2 2 [[a; b]; [c; d]].
Proof. split; [reflexivity|]. repeat constructor. Qed.

Lemma adjacency_W_edge : Sqrt.adjacency 2 W_edge.
Proof.
  split; [apply is_array_2_2|]. split; [|split].
  - intros i j Hi Hj. index2 i Hi; index2 j Hj; reflexivity.
  - intros i j Hi Hj. index2 i Hi; index2 j Hj; np_compute; lra.
  - intros i Hi. index2 i Hi; reflexivity.
Qed.

Lemma laplacian_W_edge : Sqrt.laplacian W_edge = Py.Ok L_edge.
Proof.
  np_compute. apply f_equal. rows_eq.
Qed.

Lemma eigh_examples_edge : eigh_examples L_edge = Py.Ok (ev_edge, U_edge).
Proof. table_hit. Qed.

Lemma decomposition_edge : Sqrt.eigen_decomposition 2 L_edge ev_edge U_edge.
Proof.
  pose proof sqrt2_sqr as Hs.
  split; [reflexivity|]. split; [apply is_array_2_2|]. split.
  - intros k l Hk Hl. index2 k Hk; index2 l Hl; np_compute; lra.
  - intros i j Hi Hj.
    index2 i Hi; index2 j Hj; np_compute; lra.
Qed.

(** Every answer in the table of [eigh_examples] is an exact
    eigen-decomposition of the symmetric matrix in the lower triangle of
    its key. *)
Lemma eigh_examples_exact (A : matrix) (ev : vector) (U : matrix) :
  eigh_examples A = Py.Ok (ev, U) -> Sqrt.eigen_decomposition 2 A ev U.
Proof.
  unfold eigh_examples, Sqrt.eigh_table.
  repeat case_decide; subst; intros E; try discriminate; injection E as <- <-.
  1: apply decomposition_edge.
  all: split; [reflexivity|]; split; [apply is_array_2_2|]; split;
    [ intros k l Hk Hl; index2 k Hk; index2 l Hl
    | intros i j Hi Hj; index2 i Hi; index2 j Hj ];
    np_compute; lra.
Qed.

Lemma edge_solver_exact (L : matrix) :
  Sqrt.laplacian W_edge = Py.Ok L ->
  eigh_examples L = Py.Ok (ev_edge, U_edge) /\
  Sqrt.eigen_decomposition 2 L ev_edge U_edge.
Proof.
  rewrite laplacian_W_edge. intros E. injection E as <-.
  split; [apply eigh_examples_edge|apply decomposition_edge].
Qed.

Lemma laplacian_invariant_witness :
  Sqrt.adjacency 2 W_edge /\
  exists L : matrix,
    Sqrt.laplacian W_edge = Py.Ok L /\ is_array 2 2 L /\
    dotv L (ones 2) = Py.Ok (zeros 2) /\
    (forall x : vector, length x = 2%nat -> 0 <= Sqrt.quadratic_form 2 L x) /\
    (forall (lam : R) (v : vector),
       length v = 2%nat -> (exists i, (i < 2)%nat /\ vget v i <> 0) ->
       dotv L v = Py.Ok (map (Rmult lam) v) -> 0 <= lam).
Proof.
  split; [apply adjacency_W_edge|].
  apply (laplacian_invariant 2 W_edge). apply adjacency_W_edge.
Defined.

Lemma spectral_sqrt_correct_witness :
  (0 < 2)%nat /\ Sqrt.adjacency 2 W_edge /\
  exists env : Sqrt.cell_env,
    Sqrt.sqrt_cell eigh_examples W_edge = Py.Ok env /\
    Sqrt.laplacian W_edge = Py.Ok (Sqrt.L env) /\
    is_array 2 2 (Sqrt.S env) /\
    dot (diag (sqrt (maximum 0 ev_edge))) (T U_edge) = Py.Ok (Sqrt.S env) /\
    matmul (T (Sqrt.S env)) (Sqrt.S env) = Py.Ok (Sqrt.L env) /\
    Sqrt.check_cell (Sqrt.S env) (Sqrt.L env) = Py.Ok 0 /\
    (forall tol, 0 < tol ->
       exists d, Sqrt.check_cell (Sqrt.S env) (Sqrt.L env) = Py.Ok d /\ d < tol).
Proof.
  split; [lia|]. split; [apply adjacency_W_edge|].
  apply (spectral_sqrt_correct eigh_examples 2 W_edge ev_edge U_edge).
  - lia.
  - apply adjacency_W_edge.
  - apply edge_solver_exact.
Defined.

Lemma eigh_rounded_edge : eigh_rounded L_edge = Py.Ok (ev_edge_rounded, U_edge).
Proof. table_hit. Qed.

(** Without the clamp the rounded eigenvalue would have no square root. *)
Lemma sqrt_of_rounded_is_nan : sqrt_or_nan (vget ev_edge_rounded 0) = None.
Proof.
  unfold sqrt_or_nan, vget, ev_edge_rounded. simpl.
  destruct (Rle_dec 0 (- (1 / 1000000))); [lra|reflexivity].
Qed.

End Examples.

(** ** Errors of the square-root cell *)

Section SqrtErrors.
Local Open Scope R_scope.
Import Np.

Lemma check_cell_errors (S L : matrix) (e : Py.exn) :
  Sqrt.check_cell S L = Py.Raise e -> exists msg, e = Py.ValueError msg.
Proof.
  unfold Sqrt.check_cell, matmul, dot, sub, max. intros H.
  destruct (Nat.eqb (ncols (T S)) (nrows S)); simpl in H;
    [|injection H as <-; eauto].
  match type of H with
  | context [broadcast ?a ?b] => destruct (broadcast a b)
  end; simpl in H; [|injection H as <-; eauto].
  match type of H with
  | context [broadcast ?a ?b] => destruct (broadcast a b)
  end; simpl in H; [|injection H as <-; eauto].
  match type of H with
  | context [concat ?l] => destruct (concat l)
  end; [injection H as <-; eauto|discriminate].
Qed.

(** C9, as the cell has it. For a square array [W] and an eigensolver that
    returns arrays of the right shapes, the cell raises exactly when the
    eigensolver raises on [L], and raises the same exception, at once and
    without a second attempt; when the eigensolver returns, the cell
    returns.  The cell does not test [W] for symmetry, and the checking
    cell compares the deviation with no tolerance: it returns the number,
    and can only raise numpy's [ValueError] on mismatched or empty
    arrays. *)
Theorem sqrt_cell_fails_only_with_eigh (eigh : Sqrt.eigensolver) (p : nat) (W : matrix) :
  is_array p p W -> Sqrt.eigh_shapes eigh ->
  exists L : matrix,
    Sqrt.laplacian W = Py.Ok L /\
    (forall e, Sqrt.sqrt_cell eigh W = Py.Raise e <-> eigh L = Py.Raise e) /\
    (forall ev U, eigh L = Py.Ok (ev, U) ->
       exists env, Sqrt.sqrt_cell eigh W = Py.Ok env) /\
    (forall S0 L0 e, Sqrt.check_cell S0 L0 = Py.Raise e ->
       exists msg, e = Py.ValueError msg).
Proof.
  intros HW Hsh. exists (mk_matrix p p (laplacian_entry p W)).
  split; [apply laplacian_square; assumption|].
  assert (Hret : forall ev U, eigh (mk_matrix p p (laplacian_entry p W)) = Py.Ok (ev, U) ->
            exists env, Sqrt.sqrt_cell eigh W = Py.Ok env).
  { intros ev U He. destruct (Hsh _ _ _ He) as [Hev HU].
    rewrite nrows_mk_matrix in Hev, HU. eexists.
    apply (sqrt_cell_value eigh p W ev U HW He Hev HU). }
  split; [|split; [exact Hret|apply check_cell_errors]].
  intros e. split.
  - intros Hc.
    destruct (eigh (mk_matrix p p (laplacian_entry p W))) as [[ev U]|e'] eqn:He.
    + destruct (Hret ev U eq_refl) as [env Henv]. congruence.
    + unfold Sqrt.sqrt_cell in Hc.
      pose proof (laplacian_square p W HW) as HL. unfold Sqrt.laplacian in HL.
      rewrite HL in Hc. simpl in Hc. rewrite He in Hc. simpl in Hc.
      injection Hc as ->. reflexivity.
  - intros He. unfold Sqrt.sqrt_cell.
    pose proof (laplacian_square p W HW) as HL. unfold Sqrt.laplacian in HL.
    rewrite HL. simpl. rewrite He. reflexivity.
Qed.

Lemma eigh_examples_shapes : Sqrt.eigh_shapes eigh_examples.
Proof.
  intros A ev U. unfold eigh_examples, Sqrt.eigh_table.
  repeat case_decide; subst; intros E; try discriminate;
    injection E as <- <-; (split; [reflexivity|apply is_array_2_2]).
Qed.

Lemma sqrt_cell_W_asym :
  Sqrt.sqrt_cell eigh_examples W_asym
  = Py.Ok (Sqrt.mk_env [0; 1] L_asym [0; 1] identity2 [[0; 0]; [0; 1]]).
Proof.
  assert (HL : mk_matrix 2 2 (laplacian_entry 2 W_asym) = L_asym)
    by (np_compute; rows_eq).
  assert (He : eigh_examples L_asym = Py.Ok ([0; 1], identity2)).
  { unfold eigh_examples, Sqrt.eigh_table.
    rewrite decide_False by (intros E; injection E; intros; lra).
    rewrite decide_True by reflexivity. reflexivity. }
  rewrite (sqrt_cell_value eigh_examples 2 W_asym [0; 1] identity2);
    [|apply is_array_2_2|rewrite HL; exact He|reflexivity|apply is_array_2_2].
  rewrite HL. f_equal.
  assert (Hd : sum_axis0 W_asym = [0; 1]) by (np_compute; rows_eq).
  assert (Hm : maximum 0 [0; 1] = [0; 1])
    by (np_compute; rewrite Rmax_left, Rmax_right by lra; reflexivity).
  assert (HS : mk_matrix 2 2 (sqrt_entry [0; 1] identity2) = [[0; 0]; [0; 1]]).
  { np_compute. rewrite Rmax_left, Rmax_right by lra. rewrite sqrt_0, sqrt_1.
    rows_eq. }
  rewrite Hd, Hm, HS. reflexivity.
Qed.

Lemma check_cell_W_asym : Sqrt.check_cell [[0; 0]; [0; 1]] L_asym = Py.Ok 1.
Proof. np_compute. apply f_equal. real_eval. reflexivity. Qed.

Lemma sqrt_cell_W_row :
  exists env, Sqrt.sqrt_cell eigh_examples W_row = Py.Ok env /\ Sqrt.L env = L_row.
Proof.
  assert (HL : sub (diag (sum_axis0 W_row)) W_row = Py.Ok L_row)
    by (np_compute; apply f_equal; rows_eq).
  assert (He : eigh_examples L_row = Py.Ok ([0; 0], identity2)).
  { unfold eigh_examples, Sqrt.eigh_table.
    do 2 rewrite decide_False by (intros E; injection E; intros; lra).
    rewrite decide_True by reflexivity. reflexivity. }
  unfold Sqrt.sqrt_cell. rewrite HL. cbn [mbind result_bind Py.bind].
  rewrite He. cbn [mbind result_bind Py.bind].
  rewrite (sqrt_product 2 [0; 0] identity2 eq_refl (is_array_2_2 _ _ _ _)).
  cbn [mbind result_bind Py.bind mret result_ret].
  eexists. split; reflexivity.
Qed.

(** C9 fails as stated: a matrix that is not symmetric, and one that is not
    square, go through the cell without any error, and for the first the
    checking cell returns a deviation of 1 and raises nothing. *)
Lemma asymmetric_W_not_rejected :
  ~ Sqrt.symmetric 2 W_asym /\
  (exists env, Sqrt.sqrt_cell eigh_examples W_asym = Py.Ok env /\
               Sqrt.check_cell (Sqrt.S env) (Sqrt.L env) = Py.Ok 1) /\
  nrows W_row <> ncols W_row /\
  (exists env, Sqrt.sqrt_cell eigh_examples W_row = Py.Ok env).
Proof.
  split; [|split; [|split]].
  - intros H. specialize (H 0%nat 1%nat). unfold get, W_asym in H. simpl in H.
    assert (1 = 0) by (apply H; lia). lra.
  - eexists. split; [apply sqrt_cell_W_asym|]. simpl. apply check_cell_W_asym.
  - unfold nrows, ncols, W_row. simpl. lia.
  - destruct sqrt_cell_W_row as (env & Henv & _). exists env. exact Henv.
Qed.

Lemma sqrt_cell_fails_only_with_eigh_witness :
  is_array 2 2 W_edge /\ Sqrt.eigh_shapes eigh_examples /\
  exists L : matrix,
    Sqrt.laplacian W_edge = Py.Ok L /\
    (forall e, Sqrt.sqrt_cell eigh_examples W_edge = Py.Raise e
               <-> eigh_examples L = Py.Raise e) /\
    (forall ev U, eigh_examples L = Py.Ok (ev, U) ->
       exists env, Sqrt.sqrt_cell eigh_examples W_edge = Py.Ok env) /\
    (forall S0 L0 e, Sqrt.check_cell S0 L0 = Py.Raise e ->
       exists msg, e = Py.ValueError msg).
Proof.
  split; [apply is_array_2_2|]. split; [apply eigh_examples_shapes|].
  apply (sqrt_cell_fails_only_with_eigh eigh_examples 2 W_edge).
  - apply is_array_2_2.
  - apply eigh_examples_shapes.
Defined.

End SqrtErrors.

(** ** The clamp before the square root *)

Section ClampedSqrt.
Local Open Scope R_scope.
Import Np.

Lemma nth_map_seq {A : Type} (f : nat -> A) (n i : nat) (d : A) :
  (i < n)%nat -> nth i (map f (seq 0 n)) d = f i.
Proof.
  intros Hi. rewrite (nth_indep _ d (f O)) by (rewrite length_map, length_seq; lia).
  rewrite map_nth, seq_nth by lia. reflexivity.
Qed.

Lemma fget_mk_fmatrix (m n : nat) (f : nat -> nat -> SqrtNan.fnum) (i j : nat) :
  (i < m)%nat -> (j < n)%nat -> SqrtNan.fget (SqrtNan.mk_fmatrix m n f) i j = f i j.
Proof.
  intros Hi Hj. unfold SqrtNan.fget, SqrtNan.mk_fmatrix.
  rewrite (nth_map_seq (fun i => map (f i) (seq 0 n))) by assumption.
  apply nth_map_seq. assumption.
Qed.

Lemma length_mk_fmatrix (m n : nat) (f : nat -> nat -> SqrtNan.fnum) :
  length (SqrtNan.mk_fmatrix m n f) = m.
Proof. unfold SqrtNan.mk_fmatrix. rewrite length_map, length_seq. reflexivity. Qed.

Lemma mk_fmatrix_ext (m n : nat) (f h : nat -> nat -> SqrtNan.fnum) :
  (forall i j, (i < m)%nat -> (j < n)%nat -> f i j = h i j) ->
  SqrtNan.mk_fmatrix m n f = SqrtNan.mk_fmatrix m n h.
Proof.
  intros H. unfold SqrtNan.mk_fmatrix. apply map_ext_in. intros i Hi.
  apply in_seq in Hi. apply map_ext_in. intros j Hj. apply in_seq in Hj.
  apply H; lia.
Qed.

Lemma lift_mk_matrix (m n : nat) (f : nat -> nat -> R) :
  SqrtNan.lift (mk_matrix m n f) = SqrtNan.mk_fmatrix m n (fun i j => Some (f i j)).
Proof.
  unfold SqrtNan.lift, SqrtNan.mk_fmatrix, mk_matrix, mk_vector.
  rewrite map_map. apply map_ext. intros i. apply map_map.
Qed.

Lemma no_nan_mk_fmatrix (m n : nat) (f : nat -> nat -> R) :
  SqrtNan.no_nan (SqrtNan.mk_fmatrix m n (fun i j => Some (f i j))).
Proof.
  unfold SqrtNan.no_nan, SqrtNan.mk_fmatrix.
  apply List.Forall_forall. intros row Hrow.
  apply in_map_iff in Hrow. destruct Hrow as (i & <- & _).
  apply List.Forall_forall. intros x Hx.
  apply in_map_iff in Hx. destruct Hx as (j & <- & _). eexists. reflexivity.
Qed.

Lemma fsum_ext (n : nat) (f h : nat -> SqrtNan.fnum) :
  (forall k, (k < n)%nat -> f k = h k) -> SqrtNan.fsum n f = SqrtNan.fsum n h.
Proof.
  induction n as [|n IH]; intros H; [reflexivity|].
  simpl. rewrite IH by (intros k Hk; apply H; lia).
  rewrite (H n) by lia. reflexivity.
Qed.

(** A sum of numbers is a number; a sum with a [nan] in it is [nan]. *)
Lemma fsum_some (n : nat) (f : nat -> SqrtNan.fnum) (h : nat -> R) :
  (forall k, (k < n)%nat -> f k = Some (h k)) ->
  SqrtNan.fsum n f = Some (big_sum n h).
Proof.
  induction n as [|n IH]; intros H; [reflexivity|].
  simpl. rewrite IH by (intros k Hk; apply H; lia).
  rewrite (H n) by lia. reflexivity.
Qed.

Lemma fsum_nan (n : nat) (f : nat -> SqrtNan.fnum) (k : nat) :
  (k < n)%nat -> f k = None -> SqrtNan.fsum n f = None.
Proof.
  induction n as [|n IH]; intros Hk Hf; [lia|].
  simpl. destruct (Nat.eq_dec k n) as [->|Hne].
  - rewrite Hf. destruct (SqrtNan.fsum n f); reflexivity.
  - rewrite IH by (assumption || lia). reflexivity.
Qed.

Lemma length_fsqrt (v : vector) : length (SqrtNan.sqrt v) = length v.
Proof. apply length_map. Qed.

Lemma fvget_fsqrt (v : vector) (k : nat) :
  (k < length v)%nat -> SqrtNan.fvget (SqrtNan.sqrt v) k = sqrt_or_nan (vget v k).
Proof.
  intros Hk. unfold SqrtNan.fvget, SqrtNan.sqrt, vget.
  rewrite (nth_indep _ (Some 0) (sqrt_or_nan 0)) by (rewrite length_map; lia).
  apply map_nth.
Qed.

(** On a clamped eigenvalue numpy's square root is the real one. *)
Lemma sqrt_or_nan_clamped (x : R) :
  sqrt_or_nan (Rmax 0 x) = Some (R_sqrt.sqrt (Rmax 0 x)).
Proof.
  unfold sqrt_or_nan. destruct (Rle_dec 0 (Rmax 0 x)) as [_|Hn]; [reflexivity|].
  exfalso. apply Hn. apply Rmax_l.
Qed.

Lemma sqrt_or_nan_negative (x : R) : x < 0 -> sqrt_or_nan x = None.
Proof.
  intros Hx. unfold sqrt_or_nan. destruct (Rle_dec 0 x); [lra|reflexivity].
Qed.

(** The last line of the cell on [p] eigenvalues and a [p] by [p] array. *)
Lemma sqrt_line_value (p : nat) (ev : vector) (U : matrix) :
  length ev = p -> is_array p p U ->
  SqrtNan.sqrt_line ev U
  = Py.Ok (SqrtNan.mk_fmatrix p p (fun k i =>
             SqrtNan.fsum p (fun j =>
               SqrtNan.fmul (if Nat.eqb k j then sqrt_or_nan (vget ev k) else Some 0)
                            (Some (get U i j))))).
Proof.
  intros Hev HU. unfold SqrtNan.sqrt_line, SqrtNan.dot, SqrtNan.diag.
  rewrite length_fsqrt, Hev.
  assert (HT : is_array p p (T U)) by (apply is_array_T; assumption).
  rewrite (is_array_nrows p p _ HT), (is_array_ncols_sq p _ HT).
  assert (Hh : length (hd [] (SqrtNan.mk_fmatrix p p (fun i j =>
                 if Nat.eqb i j then SqrtNan.fvget (SqrtNan.sqrt ev) i else Some 0))) = p).
  { unfold SqrtNan.mk_fmatrix. destruct p as [|p]; [reflexivity|].
    simpl. rewrite length_map, length_seq. reflexivity. }
  rewrite Hh, Nat.eqb_refl, length_mk_fmatrix.
  f_equal. apply mk_fmatrix_ext. intros k i Hk Hi.
  assert (Hf : forall j, (j < p)%nat ->
            SqrtNan.fmul
              (SqrtNan.fget (SqrtNan.mk_fmatrix p p (fun i j =>
                 if Nat.eqb i j then SqrtNan.fvget (SqrtNan.sqrt ev) i else Some 0)) k j)
              (Some (get (T U) j i))
            = SqrtNan.fmul (if Nat.eqb k j then sqrt_or_nan (vget ev k) else Some 0)
                (Some (get U i j))).
  { intros j Hj. rewrite fget_mk_fmatrix by assumption.
    rewrite (get_T p U j i HU Hj Hi).
    rewrite fvget_fsqrt by lia. reflexivity. }
  apply fsum_ext. exact Hf.
Qed.

(** With every square root a number, the row [k] of [S] is
    [sqrt(evals[k])] times the column [k] of [evecs]. *)
Lemma sqrt_row_number (p : nat) (U : matrix) (k i : nat) (s : R) :
  (k < p)%nat ->
  SqrtNan.fsum p (fun j =>
    SqrtNan.fmul (if Nat.eqb k j then Some s else Some 0) (Some (get U i j)))
  = Some (s * get U i k).
Proof.
  intros Hk.
  rewrite (fsum_some p _ (fun j => (if Nat.eqb k j then s else 0) * get U i j)).
  - f_equal.
    rewrite <- (big_sum_delta' p k (fun j => s * get U i j) Hk).
    apply big_sum_ext. intros j Hj. destruct (Nat.eqb k j); lra.
  - intros j Hj. destruct (Nat.eqb k j); reflexivity.
Qed.

(** C4. Whatever the eigensolver returns for [L], negative eigenvalues
    included, the cell returns: [evals] is rebound to [max(0, sigma_i)]
    entry by entry before the square root is taken, so every argument of
    [np.sqrt] is non-negative, every square root is a number, and no entry
    of [S] is [nan]: [S[k, i] = sqrt(max(0, sigma_k)) * evecs[i, k]], the
    array that [Sqrt.sqrt_cell] gives.  The clamp is what makes it so: the
    same last line on the eigenvalues as the solver returned them gives
    [nan] in the whole row of every negative eigenvalue. *)
Theorem clamp_keeps_sqrt_defined (eigh : Sqrt.eigensolver) (p : nat) (W L : matrix)
        (ev : vector) (U : matrix) :
  Sqrt.laplacian W = Py.Ok L ->
  eigh L = Py.Ok (ev, U) ->
  length ev = p -> is_array p p U ->
  exists env : SqrtNan.cell_env,
    SqrtNan.sqrt_cell eigh W = Py.Ok env /\
    SqrtNan.evals env = map (Rmax 0) ev /\
    (forall k, (k < p)%nat ->
       vget (SqrtNan.evals env) k = Rmax 0 (vget ev k) /\
       0 <= vget (SqrtNan.evals env) k /\
       SqrtNan.fvget (SqrtNan.sqrt (SqrtNan.evals env)) k
       = Some (R_sqrt.sqrt (Rmax 0 (vget ev k)))) /\
    SqrtNan.S env = SqrtNan.mk_fmatrix p p (fun k i => Some (sqrt_entry ev U k i)) /\
    SqrtNan.no_nan (SqrtNan.S env) /\
    (exists env' : Sqrt.cell_env,
       Sqrt.sqrt_cell eigh W = Py.Ok env' /\
       SqrtNan.S env = SqrtNan.lift (Sqrt.S env')) /\
    (exists S' : SqrtNan.fmatrix,
       SqrtNan.sqrt_line ev U = Py.Ok S' /\
       forall k i, (k < p)%nat -> (i < p)%nat -> vget ev k < 0 ->
                   SqrtNan.fget S' k i = None).
Proof.
  intros HL He Hev HU.
  assert (Hm : length (maximum 0 ev) = p) by (unfold maximum; rewrite length_map; exact Hev).
  assert (HS : SqrtNan.sqrt_line (maximum 0 ev) U
               = Py.Ok (SqrtNan.mk_fmatrix p p (fun k i => Some (sqrt_entry ev U k i)))).
  { rewrite (sqrt_line_value p _ U Hm HU). f_equal.
    apply mk_fmatrix_ext. intros k i Hk Hi.
    rewrite (fsum_ext p _ (fun j =>
               SqrtNan.fmul (if Nat.eqb k j then Some (R_sqrt.sqrt (Rmax 0 (vget ev k)))
                             else Some 0) (Some (get U i j)))).
    - rewrite (sqrt_row_number p U k i _ Hk). reflexivity.
    - intros j Hj. unfold maximum. rewrite vget_map by lia.
      rewrite sqrt_or_nan_clamped. reflexivity. }
  exists (SqrtNan.mk_env (sum_axis0 W) L (maximum 0 ev) U
            (SqrtNan.mk_fmatrix p p (fun k i => Some (sqrt_entry ev U k i)))).
  split.
  { unfold SqrtNan.sqrt_cell. unfold Sqrt.laplacian in HL. rewrite HL.
    cbn [mbind result_bind Py.bind]. rewrite He.
    cbn [mbind result_bind Py.bind]. rewrite HS. reflexivity. }
  cbn [SqrtNan.evals SqrtNan.S]. split; [reflexivity|]. split.
  { intros k Hk. unfold maximum at 1 2. rewrite vget_map by lia.
    split; [reflexivity|]. split; [apply Rmax_l|].
    rewrite fvget_fsqrt by lia. unfold maximum. rewrite vget_map by lia.
    apply sqrt_or_nan_clamped. }
  split; [reflexivity|]. split; [apply no_nan_mk_fmatrix|]. split.
  { exists (Sqrt.mk_env (sum_axis0 W) L (maximum 0 ev) U (mk_matrix p p (sqrt_entry ev U))).
    split.
    - unfold Sqrt.sqrt_cell. unfold Sqrt.laplacian in HL. rewrite HL.
      cbn [mbind result_bind Py.bind]. rewrite He.
      cbn [mbind result_bind Py.bind]. rewrite (sqrt_product p ev U Hev HU). reflexivity.
    - cbn [Sqrt.S]. symmetry. apply lift_mk_matrix. }
  eexists. split; [apply (sqrt_line_value p ev U Hev HU)|].
  intros k i Hk Hi Hneg. rewrite fget_mk_fmatrix by assumption.
  apply (fsum_nan p _ k Hk). rewrite Nat.eqb_refl.
  rewrite (sqrt_or_nan_negative _ Hneg). reflexivity.
Qed.

(** The solver of the example reports the zero eigenvalue of the edge as
    [-1e-6]. *)
Lemma clamp_keeps_sqrt_defined_witness :
  Sqrt.laplacian W_edge = Py.Ok L_edge /\
  eigh_rounded L_edge = Py.Ok (ev_edge_rounded, U_edge) /\
  length ev_edge_rounded = 2%nat /\ is_array 2 2 U_edge /\
  vget ev_edge_rounded 0 < 0 /\
  exists env : SqrtNan.cell_env,
    SqrtNan.sqrt_cell eigh_rounded W_edge = Py.Ok env /\
    SqrtNan.evals env = map (Rmax 0) ev_edge_rounded /\
    (forall k, (k < 2)%nat ->
       vget (SqrtNan.evals env) k = Rmax 0 (vget ev_edge_rounded k) /\
       0 <= vget (SqrtNan.evals env) k /\
       SqrtNan.fvget (SqrtNan.sqrt (SqrtNan.evals env)) k
       = Some (R_sqrt.sqrt (Rmax 0 (vget ev_edge_rounded k)))) /\
    SqrtNan.S env
    = SqrtNan.mk_fmatrix 2 2 (fun k i => Some (sqrt_entry ev_edge_rounded U_edge k i)) /\
    SqrtNan.no_nan (SqrtNan.S env) /\
    (exists env' : Sqrt.cell_env,
       Sqrt.sqrt_cell eigh_rounded W_edge = Py.Ok env' /\
       SqrtNan.S env = SqrtNan.lift (Sqrt.S env')) /\
    (exists S' : SqrtNan.fmatrix,
       SqrtNan.sqrt_line ev_edge_rounded U_edge = Py.Ok S' /\
       forall k i, (k < 2)%nat -> (i < 2)%nat -> vget ev_edge_rounded k < 0 ->
                   SqrtNan.fget S' k i = None).
Proof.
  split; [apply laplacian_W_edge|]. split; [apply eigh_rounded_edge|].
  split; [reflexivity|]. split; [apply is_array_2_2|].
  split; [unfold vget, ev_edge_rounded; simpl; lra|].
  apply (clamp_keeps_sqrt_defined eigh_rounded 2 W_edge L_edge ev_edge_rounded U_edge).
  - apply laplacian_W_edge.
  - apply eigh_rounded_edge.
  - reflexivity.
  - apply is_array_2_2.
Defined.

End ClampedSqrt.

(** ** The class cell *)

Section ClassCell.
Local Open Scope R_scope.
Import NcLasso.

(** [predict] is the one [def] of the class without a block. *)
Lemma defs_without_block :
  filter (fun d => negb (has_block d)) ncLasso = [predict].
Proof. reflexivity. Qed.

(** The cell of the class does not compile: it raises [SyntaxError] and
    leaves the names of the notebook as they were. *)
Lemma class_cell_fails (ns : namespace) :
  class_cell ns = (ns, Py.Raise (Py.OtherError "SyntaxError")).
Proof. reflexivity. Qed.

Lemma after_class_cell_eq (g : globals) : after_class_cell g = mk_ns g ∅.
Proof. reflexivity. Qed.

(** With a statement under [predict] the cell compiles and binds the
    class. *)
Lemma after_class_cell_with_block (s : stmt) (body : list stmt) (g : globals) :
  after_class_cell_with (s :: body) g
  = mk_ns g (<["ncLasso" := ncLasso_with (s :: body)]> ∅).
Proof. reflexivity. Qed.

(** In the notebook every call of the class fails on its name. *)
Lemma construct_and_call_unbound (Lasso_fit : lasso_solver) (g : globals)
      (args : arguments) (name : string) (margs : arguments) :
  construct_and_call Lasso_fit (after_class_cell g) "ncLasso" args name margs
  = (None, Py.Raise (Py.NameError "ncLasso")).
Proof.
  unfold construct_and_call, construct. rewrite after_class_cell_eq.
  cbn [classes]. rewrite lookup_empty. reflexivity.
Qed.

Lemma new_object_lambda1 (LapSqrt lambda1 lambda2 : option pyval) :
  new_object LapSqrt lambda1 lambda2 !! "lambda1" = Some (default (PyFloat 1) lambda1).
Proof.
  unfold new_object. rewrite lookup_insert_ne by discriminate.
  apply lookup_insert_eq.
Qed.

Lemma new_object_other (LapSqrt lambda1 lambda2 : option pyval) (k : string) :
  k <> "LapSqrt" -> k <> "lambda1" -> k <> "lambda2" ->
  new_object LapSqrt lambda1 lambda2 !! k = None.
Proof.
  intros H1 H2 H3. unfold new_object.
  rewrite !lookup_insert_ne by congruence. apply lookup_empty.
Qed.

(** [__init__] stores its three parameters. *)
Lemma init_run (Lasso_fit : lasso_solver) (g : globals) (body : list stmt)
      (LapSqrt lambda1 lambda2 : option pyval) :
  call_method Lasso_fit g (ncLasso_with body) "__init__"
    (init_arguments LapSqrt lambda1 lambda2) ∅
  = (new_object LapSqrt lambda1 lambda2, Py.Ok (RetVal PyNone)).
Proof.
  destruct LapSqrt, lambda1, lambda2; reflexivity.
Qed.


(** What the body of [fit] does on an object with [lambda1], whatever is
    written under [predict]: it stores a new inner solver, reads [X_new]
    and then [y_new] among the globals, and calls the solver. *)
Lemma fit_run (Lasso_fit : lasso_solver) (g : globals) (body : list stmt)
      (X y : pyval) (obj : attrs) (alpha : pyval) :
  obj !! "lambda1" = Some alpha ->
  call_method Lasso_fit g (ncLasso_with body) "fit" [("X", X); ("y", y)] obj
  = match g !! "X_new" with
    | None => (<["lasso" := PyLasso true alpha None]> obj,
               Py.Raise (Py.NameError "X_new"))
    | Some X_new =>
        match g !! "y_new" with
        | None => (<["lasso" := PyLasso true alpha None]> obj,
                   Py.Raise (Py.NameError "y_new"))
        | Some y_new =>
            (<["lasso" := PyLasso true alpha (Lasso_fit true alpha None X_new y_new).1]> obj,
             match (Lasso_fit true alpha None X_new y_new).2 with
             | Some ex => Py.Raise ex
             | None => Py.Ok RetSelf
             end)
        end
    end.
Proof.
  intros Ha. unfold call_method.
  change (find _ (ncLasso_with body)) with (Some fit). cbv beta iota.
  change (known_arguments (def_params fit) _) with true. cbv beta iota.
  change (bind_params (def_params fit) _)
    with (Py.Ok (<["X" := X]> (<["y" := y]> (∅ : locals)))).
  cbv beta iota.
  change (def_body fit) with [assign_lasso; call_lasso_fit; return_self].
  unfold exec, assign_lasso, call_lasso_fit, return_self.
  unfold mbind, M_bind, mret, M_ret, getattr, setattr, load, call_fit.
  rewrite Ha. rewrite (lookup_insert_eq (M:=gmap string) obj "lasso").
  rewrite !(lookup_insert_ne (M:=gmap string)) by discriminate.
  rewrite !(lookup_empty (M:=gmap string)).
  destruct (g !! "X_new") as [X_new|]; [|reflexivity].
  destruct (g !! "y_new") as [y_new|]; [|reflexivity].
  rewrite (lookup_insert_eq (M:=gmap string) obj "lasso").
  destruct (Lasso_fit true alpha None X_new y_new) as [st' [ex|]];
    cbn [fst snd]; rewrite (insert_insert_eq (M:=gmap string)); reflexivity.
Qed.

(** The call [ncLasso(...).fit(X, y)] when the class is bound. *)
Lemma fit_call_with_block (Lasso_fit : lasso_solver) (g : globals)
      (s : stmt) (body : list stmt) (LapSqrt lambda1 lambda2 : option pyval)
      (X y : pyval) :
  fit_call Lasso_fit (after_class_cell_with (s :: body) g) LapSqrt lambda1 lambda2 X y
  = (Some (call_method Lasso_fit g (ncLasso_with (s :: body)) "fit"
             [("X", X); ("y", y)] (new_object LapSqrt lambda1 lambda2)).1,
     (call_method Lasso_fit g (ncLasso_with (s :: body)) "fit"
        [("X", X); ("y", y)] (new_object LapSqrt lambda1 lambda2)).2).
Proof.
  unfold fit_call, construct_and_call, construct.
  rewrite after_class_cell_with_block. cbn [classes vars].
  rewrite lookup_insert_eq. rewrite init_run.
  destruct (call_method _ _ _ "fit" _ _). reflexivity.
Qed.

(** The body of [fit] assigns the attribute [lasso] and no other. *)
Lemma fit_run_lookup (Lasso_fit : lasso_solver) (g : globals) (body : list stmt)
      (X y : pyval) (obj : attrs) (alpha : pyval) (k : string) :
  obj !! "lambda1" = Some alpha -> k <> "lasso" ->
  (call_method Lasso_fit g (ncLasso_with body) "fit" [("X", X); ("y", y)] obj).1 !! k
  = obj !! k.
Proof.
  intros Ha Hk. rewrite (fit_run _ _ _ _ _ _ _ Ha).
  destruct (g !! "X_new") as [X_new|]; [|cbn [fst]; apply lookup_insert_ne; congruence].
  destruct (g !! "y_new") as [y_new|]; [|cbn [fst]; apply lookup_insert_ne; congruence].
  cbn [fst]. apply lookup_insert_ne. congruence.
Qed.

(** An exception that leaves the body of [fit] is the [NameError] of
    [X_new] or [y_new], or comes from the inner solver. *)
Lemma fit_run_raises (Lasso_fit : lasso_solver) (g : globals) (body : list stmt)
      (X y : pyval) (obj : attrs) (alpha : pyval) (e : Py.exn) :
  obj !! "lambda1" = Some alpha ->
  (call_method Lasso_fit g (ncLasso_with body) "fit" [("X", X); ("y", y)] obj).2
  = Py.Raise e ->
  e = Py.NameError "X_new" \/ e = Py.NameError "y_new" \/
  exists X_new y_new, (Lasso_fit true alpha None X_new y_new).2 = Some e.
Proof.
  intros Ha. rewrite (fit_run _ _ _ _ _ _ _ Ha).
  destruct (g !! "X_new") as [X_new|];
    [|cbn [snd]; intros E; injection E as <-; left; reflexivity].
  destruct (g !! "y_new") as [y_new|];
    [|cbn [snd]; intros E; injection E as <-; right; left; reflexivity].
  cbn [snd]. destruct (Lasso_fit true alpha None X_new y_new).2 as [ex|] eqn:EL;
    intros E; [|discriminate].
  injection E as <-. right; right. exists X_new, y_new. exact EL.
Qed.

(** When the body of [fit] raises, the inner solver it has stored is not
    fitted, for a solver that stores nothing when it raises. *)
Lemma fit_run_lasso (Lasso_fit : lasso_solver) (g : globals) (body : list stmt)
      (X y : pyval) (obj : attrs) (alpha : pyval) (e : Py.exn) :
  stores_nothing_on_error Lasso_fit ->
  obj !! "lambda1" = Some alpha ->
  (call_method Lasso_fit g (ncLasso_with body) "fit" [("X", X); ("y", y)] obj).2
  = Py.Raise e ->
  (call_method Lasso_fit g (ncLasso_with body) "fit" [("X", X); ("y", y)] obj).1
    !! "lasso" = Some (PyLasso true alpha None).
Proof.
  intros Hs Ha. rewrite (fit_run _ _ _ _ _ _ _ Ha).
  destruct (g !! "X_new") as [X_new|]; [|intros _; cbn [fst]; apply lookup_insert_eq].
  destruct (g !! "y_new") as [y_new|]; [|intros _; cbn [fst]; apply lookup_insert_eq].
  cbn [fst snd]. pose proof (Hs true alpha None X_new y_new) as Hs'.
  destruct (Lasso_fit true alpha None X_new y_new).2 as [ex|]; intros E; [|discriminate].
  rewrite (Hs' ex eq_refl). apply lookup_insert_eq.
Qed.

Lemma Lasso_fit_zero_no_shape_error : no_shape_error Lasso_fit_zero.
Proof.
  intros fi a st X y e. unfold Lasso_fit_zero.
  destruct X; cbn [snd]; intros E; try discriminate;
    injection E as <-; intros [H|H]; discriminate.
Qed.

Lemma Lasso_fit_zero_stores_nothing : stores_nothing_on_error Lasso_fit_zero.
Proof.
  intros fi a st X y e. unfold Lasso_fit_zero.
  destruct X; cbn [fst snd]; intros E; try discriminate; reflexivity.
Qed.

End ClassCell.

(** ** The estimator in the notebook *)

Section Estimator.
Local Open Scope R_scope.
Import NcLasso.

(** C1. In the notebook the cell of the class raises [SyntaxError] and
    binds nothing, so the name [ncLasso] stays unbound and every call
    [ncLasso(LapSqrt, lambda1, lambda2).fit(X, y)] raises [NameError] for
    [ncLasso], with every inner solver and every data: no object is made,
    no inner solver is built or run on any design, and there is no
    [coef_]. *)
Theorem fit_never_reached (Lasso_fit : lasso_solver) (g : globals)
        (LapSqrt lambda1 lambda2 : option pyval) (X y : pyval) :
  class_cell (mk_ns g ∅) = (mk_ns g ∅, Py.Raise (Py.OtherError "SyntaxError")) /\
  classes (after_class_cell g) !! "ncLasso" = None /\
  fit_call Lasso_fit (after_class_cell g) LapSqrt lambda1 lambda2 X y
  = (None, Py.Raise (Py.NameError "ncLasso")) /\
  attribute (fit_call Lasso_fit (after_class_cell g) LapSqrt lambda1 lambda2 X y).1
    "lasso" = None /\
  attribute (fit_call Lasso_fit (after_class_cell g) LapSqrt lambda1 lambda2 X y).1
    "coef_" = None.
Proof.
  split; [apply class_cell_fails|].
  split; [rewrite after_class_cell_eq; apply (lookup_empty (M:=gmap string))|].
  unfold fit_call. rewrite construct_and_call_unbound.
  split; [reflexivity|]. split; reflexivity.
Qed.

(** C5. With [lambda2 = 0] the call is the same [NameError] for
    [ncLasso]: it leaves no object, so whatever coefficients the plain
    Lasso fit with the same [lambda1] finds on [(X, y)], the call has no
    [coef_] to equal them. *)
Theorem fit_lambda2_zero_never_reached (Lasso_fit : lasso_solver) (g : globals)
        (LapSqrt : option pyval) (lambda1 : R) (X : Np.matrix) (y : Np.vector) :
  fit_call Lasso_fit (after_class_cell g) LapSqrt (Some (PyFloat lambda1))
    (Some (PyFloat 0)) (PyMat X) (PyVec y)
  = (None, Py.Raise (Py.NameError "ncLasso")) /\
  forall (beta : Np.vector) (intercept : R),
    (Lasso_fit true (PyFloat lambda1) None (PyMat X) (PyVec y)).1 = Some (beta, intercept) ->
    attribute (fit_call Lasso_fit (after_class_cell g) LapSqrt (Some (PyFloat lambda1))
                 (Some (PyFloat 0)) (PyMat X) (PyVec y)).1 "coef_"
    <> Some (PyVec beta).
Proof.
  unfold fit_call. rewrite construct_and_call_unbound.
  split; [reflexivity|]. intros beta intercept _. discriminate.
Qed.

(** C6. [predict] is the one [def] of the class without a statement under
    it, which is why the cell does not compile; in the notebook every call
    [ncLasso(LapSqrt, lambda1, lambda2).predict(X)] raises [NameError] for
    [ncLasso]: it returns no linear map [X beta + intercept], and what it
    raises is no shape error. *)
Theorem predict_never_reached (Lasso_fit : lasso_solver) (g : globals)
        (LapSqrt lambda1 lambda2 : option pyval) (X : Np.matrix) :
  filter (fun d => negb (has_block d)) ncLasso = [predict] /\
  predict_call Lasso_fit (after_class_cell g) LapSqrt lambda1 lambda2 (PyMat X)
  = (None, Py.Raise (Py.NameError "ncLasso")) /\
  (forall (beta : Np.vector) (intercept : R),
     (predict_call Lasso_fit (after_class_cell g) LapSqrt lambda1 lambda2 (PyMat X)).2
     <> Py.Ok (RetVal (PyVec (linear_map X beta intercept)))) /\
  ~ (exists e,
       (predict_call Lasso_fit (after_class_cell g) LapSqrt lambda1 lambda2 (PyMat X)).2
       = Py.Raise e /\ Py.is_shape_error e).
Proof.
  split; [apply defs_without_block|].
  unfold predict_call. rewrite construct_and_call_unbound.
  split; [reflexivity|]. split.
  - intros beta intercept. discriminate.
  - intros (e & E & [H|H]); cbn [snd] in E; injection E as <-; discriminate.
Qed.






End Estimator.

(** ** A graph without edges *)

Section Degenerate.
Local Open Scope R_scope.
Import Np NcLasso.

Lemma get_zeros2 (p i j : nat) : (i < p)%nat -> (j < p)%nat -> get (zeros2 p p) i j = 0.
Proof. intros Hi Hj. unfold zeros2. rewrite get_mk_matrix by assumption. reflexivity. Qed.

Lemma all_zero_is_zeros2 (p : nat) (W : matrix) :
  is_array p p W ->
  (forall i j, (i < p)%nat -> (j < p)%nat -> get W i j = 0) -> W = zeros2 p p.
Proof.
  intros HW H. apply (array_ext p p); [assumption|apply is_array_mk_matrix|].
  intros i j Hi Hj. rewrite (H i j Hi Hj), get_zeros2 by assumption. reflexivity.
Qed.

Lemma laplacian_entry_zeros (p i j : nat) :
  (i < p)%nat -> (j < p)%nat -> laplacian_entry p (zeros2 p p) i j = 0.
Proof.
  intros Hi Hj. unfold laplacian_entry. rewrite get_zeros2 by assumption.
  destruct (Nat.eqb i j); [|lra].
  rewrite (big_sum_ext p _ (fun _ => 0)), big_sum_zero; [lra|].
  intros k Hk. apply get_zeros2; assumption.
Qed.

Lemma symmetric_zeros2 (p : nat) : Sqrt.symmetric p (zeros2 p p).
Proof. intros i j Hi Hj. rewrite !get_zeros2 by assumption. reflexivity. Qed.

(** C8. When [W] has no edges, [L] is the zero matrix and, for an
    eigensolver that returns an exact eigen-decomposition, so is [S].  But
    no fit is made with it: in the notebook the call
    [ncLasso(S, lambda1, lambda2).fit(X, y)] raises [NameError] for
    [ncLasso] for every [lambda2], zero or not, and leaves no object and no
    coefficients to compare. *)
Theorem degenerate_graph_zero_sqrt (eigh : Sqrt.eigensolver) (Lasso_fit : lasso_solver)
        (p : nat) (W : matrix) (ev : vector) (U : matrix) :
  is_array p p W ->
  (forall i j, (i < p)%nat -> (j < p)%nat -> get W i j = 0) ->
  (forall L, Sqrt.laplacian W = Py.Ok L ->
     eigh L = Py.Ok (ev, U) /\ Sqrt.eigen_decomposition p L ev U) ->
  exists env : Sqrt.cell_env,
    Sqrt.sqrt_cell eigh W = Py.Ok env /\
    Sqrt.L env = zeros2 p p /\ Sqrt.S env = zeros2 p p /\
    forall (g : globals) (X y : pyval) (lambda1 lambda2 : R),
      fit_call Lasso_fit (after_class_cell g) (Some (PyMat (Sqrt.S env)))
        (Some (PyFloat lambda1)) (Some (PyFloat lambda2)) X y
      = (None, Py.Raise (Py.NameError "ncLasso")) /\
      attribute (fit_call Lasso_fit (after_class_cell g) (Some (PyMat (Sqrt.S env)))
                   (Some (PyFloat lambda1)) (Some (PyFloat lambda2)) X y).1 "coef_"
      = None.
Proof.
  intros HW Hz Heig.
  pose proof (all_zero_is_zeros2 p W HW Hz) as ->.
  destruct (Heig _ (laplacian_square p _ HW)) as [He Hdec].
  pose proof Hdec as (Hev & HU & Ho & Hd).
  assert (HLz : mk_matrix p p (laplacian_entry p (zeros2 p p)) = zeros2 p p).
  { apply mk_matrix_ext. intros i j Hi Hj. apply laplacian_entry_zeros; assumption. }
  assert (Hev0 : forall k, (k < p)%nat -> vget ev k = 0).
  { intros k Hk.
    rewrite <- (rayleigh p (get U) (laplacian_entry p (zeros2 p p)) (vget ev) k Hk Ho).
    - rewrite (big_sum_ext p _ (fun _ => 0)), big_sum_zero; [reflexivity|].
      intros i Hi. rewrite (big_sum_ext p _ (fun _ => 0)), big_sum_zero; [reflexivity|].
      intros j Hj. rewrite laplacian_entry_zeros by assumption. lra.
    - intros i j Hi Hj.
      rewrite <- (lower_sym_laplacian p _ i j (symmetric_zeros2 p) Hi Hj).
      apply Hd; assumption. }
  assert (HSz : mk_matrix p p (sqrt_entry ev U) = zeros2 p p).
  { apply mk_matrix_ext. intros k i Hk Hi. unfold sqrt_entry.
    rewrite (Hev0 k Hk), Rmax_left by lra. rewrite sqrt_0. lra. }
  eexists. split; [apply (sqrt_cell_value eigh p _ ev U HW He Hev HU)|].
  cbn [Sqrt.L Sqrt.S]. split; [exact HLz|]. split; [exact HSz|].
  intros g X y lambda1 lambda2.
  unfold fit_call. rewrite construct_and_call_unbound. split; reflexivity.
Qed.

Lemma laplacian_W_empty : Sqrt.laplacian W_empty = Py.Ok [[0; 0]; [0; 0]].
Proof. np_compute. apply f_equal. rows_eq. Qed.

Lemma decomposition_empty :
  Sqrt.eigen_decomposition 2 [[0; 0]; [0; 0]] [0; 0] identity2.
Proof.
  split; [reflexivity|]. split; [apply is_array_2_2|]. split.
  - intros k l Hk Hl. index2 k Hk; index2 l Hl; np_compute; lra.
  - intros i j Hi Hj. index2 i Hi; index2 j Hj; np_compute; lra.
Qed.

Lemma empty_solver_exact (L : matrix) :
  Sqrt.laplacian W_empty = Py.Ok L ->
  eigh_examples L = Py.Ok ([0; 0], identity2) /\
  Sqrt.eigen_decomposition 2 L [0; 0] identity2.
Proof.
  rewrite laplacian_W_empty. intros E. injection E as <-.
  split; [|apply decomposition_empty].
  unfold eigh_examples, Sqrt.eigh_table.
  do 3 rewrite decide_False by (intros E; injection E; intros; lra).
  rewrite decide_True by reflexivity. reflexivity.
Qed.

Lemma degenerate_graph_zero_sqrt_witness :
  is_array 2 2 W_empty /\
  (forall i j, (i < 2)%nat -> (j < 2)%nat -> get W_empty i j = 0) /\
  exists env : Sqrt.cell_env,
    Sqrt.sqrt_cell eigh_examples W_empty = Py.Ok env /\
    Sqrt.L env = zeros2 2 2 /\ Sqrt.S env = zeros2 2 2 /\
    forall (g : globals) (X y : pyval) (lambda1 lambda2 : R),
      fit_call Lasso_fit_zero (after_class_cell g) (Some (PyMat (Sqrt.S env)))
        (Some (PyFloat lambda1)) (Some (PyFloat lambda2)) X y
      = (None, Py.Raise (Py.NameError "ncLasso")) /\
      attribute (fit_call Lasso_fit_zero (after_class_cell g) (Some (PyMat (Sqrt.S env)))
                   (Some (PyFloat lambda1)) (Some (PyFloat lambda2)) X y).1 "coef_"
      = None.
Proof.
  assert (HA : is_array 2 2 W_empty) by apply is_array_mk_matrix.
  assert (HZ : forall i j, (i < 2)%nat -> (j < 2)%nat -> get W_empty i j = 0)
    by (intros i j Hi Hj; apply get_zeros2; assumption).
  split; [exact HA|]. split; [exact HZ|].
  apply (degenerate_graph_zero_sqrt eigh_examples Lasso_fit_zero 2 W_empty [0; 0] identity2
           HA HZ empty_solver_exact).
Defined.

End Degenerate.

(** ** The simulated network *)

Section Network.
Local Open Scope R_scope.
Import Np.

Lemma for_range_app {A : Type} (body : A -> nat -> Py.result A) (l1 l2 : list nat) (a : A) :
  Sim.for_range body (l1 ++ l2) a
  = Py.bind (Sim.for_range body l1 a) (Sim.for_range body l2).
Proof.
  revert a. induction l1 as [|i l1 IH]; intros a; simpl; [reflexivity|].
  destruct (body a i) as [a'|e]; simpl; [apply IH|reflexivity].
Qed.

Lemma written_S (n m k i j : nat) :
  Sim.written n m (Datatypes.S k) i j
  = Sim.written n m k i j
    || ((Sim.in_module m k i && Sim.in_module m k j)
        || Sim.is_link n m k i j || Sim.is_link n m k j i).
Proof.
  unfold Sim.written. rewrite seq_S, existsb_app. simpl.
  rewrite orb_false_r. reflexivity.
Qed.

Lemma get_ones2 (m i j : nat) :
  (i < m)%nat -> (j < m)%nat ->
  get (Sim.ones2 m m) (bidx m i) (bidx m j) = 1.
Proof.
  intros Hi Hj. unfold Sim.ones2, bidx.
  destruct (Nat.eqb_spec m 1); rewrite get_mk_matrix by lia; reflexivity.
Qed.

Lemma network_body_step (n m k : nat) (W : matrix) :
  (0 < m)%nat -> ((k + 1) * m <= n)%nat -> loop_inv n m k W ->
  exists W', Sim.network_body n m W k = Py.Ok W' /\ loop_inv n m (Datatypes.S k) W'.
Proof.
  intros Hm Hk [HW Hget].
  pose proof (is_array_nrows n n W HW) as Hr.
  pose proof (is_array_ncols_sq n W HW) as Hc.
  assert (Hn1 : Sim.ones2 m m = mk_matrix m m (fun _ _ => 1)) by reflexivity.
  assert (Hor : nrows (Sim.ones2 m m) = m) by (rewrite Hn1; apply nrows_mk_matrix).
  assert (Hoc : ncols (Sim.ones2 m m) = m)
    by (rewrite Hn1; apply ncols_mk_matrix; assumption).
  set (W1 := mk_matrix n n (fun i j =>
               if Sim.in_module m k i && Sim.in_module m k j then 1 else get W i j)).
  assert (H1 : Sim.set_slice2 W (k * m) ((k + 1) * m) (k * m) ((k + 1) * m)
                 (Sim.ones2 m m) = Py.Ok W1).
  { unfold Sim.set_slice2. rewrite Hr, Hc, Hor, Hoc.
    rewrite !Nat.min_l by lia.
    replace ((k + 1) * m - k * m)%nat with m by lia.
    unfold Sim.broadcast_to. rewrite Nat.eqb_refl. simpl. f_equal.
    apply mk_matrix_ext. intros i j Hi Hj. unfold Sim.in_module.
    destruct (Nat.leb_spec (k * m) i); destruct (Nat.ltb_spec i ((k + 1) * m));
      destruct (Nat.leb_spec (k * m) j); destruct (Nat.ltb_spec j ((k + 1) * m));
      simpl; try reflexivity.
    apply get_ones2; lia. }
  assert (HW1 : is_array n n W1) by apply is_array_mk_matrix.
  unfold Sim.network_body. rewrite H1. cbn [mbind result_bind Py.bind].
  destruct (Nat.eqb_spec ((k + 1) * m) n) as [Heq|Hne].
  - exists W1. split; [reflexivity|]. split; [exact HW1|].
    intros i j Hi Hj. unfold W1. rewrite get_mk_matrix, written_S by assumption.
    rewrite (Hget i j Hi Hj). unfold Sim.is_link.
    destruct (Nat.eqb_spec ((k + 1) * m) n); [|contradiction]. simpl.
    rewrite !orb_false_r.
    destruct (Sim.in_module m k i && Sim.in_module m k j);
      destruct (Sim.written n m k i j); reflexivity.
  - set (a := ((k + 1) * m - 1)%nat). set (b := ((k + 1) * m)%nat).
    assert (Ha : (a < n)%nat) by (unfold a; lia).
    assert (Hb : (b < n)%nat) by (unfold b; lia).
    set (W2 := mk_matrix n n (fun i j =>
                 if Nat.eqb i a && Nat.eqb j b then 1 else get W1 i j)).
    set (W3 := mk_matrix n n (fun i j =>
                 if Nat.eqb i b && Nat.eqb j a then 1 else get W2 i j)).
    assert (H2 : Sim.set_item W1 a b 1 = Py.Ok W2).
    { unfold Sim.set_item.
      rewrite (is_array_nrows n n W1 HW1), (is_array_ncols_sq n W1 HW1).
      destruct (Nat.ltb_spec a n); [|lia]. destruct (Nat.ltb_spec b n); [|lia].
      reflexivity. }
    assert (HW2 : is_array n n W2) by apply is_array_mk_matrix.
    assert (H3 : Sim.set_item W2 b a 1 = Py.Ok W3).
    { unfold Sim.set_item.
      rewrite (is_array_nrows n n W2 HW2), (is_array_ncols_sq n W2 HW2).
      destruct (Nat.ltb_spec a n); [|lia]. destruct (Nat.ltb_spec b n); [|lia].
      reflexivity. }
    rewrite H2. cbn [mbind result_bind Py.bind]. rewrite H3.
    exists W3. split; [reflexivity|]. split; [apply is_array_mk_matrix|].
    intros i j Hi Hj. unfold W3, W2, W1.
    rewrite !get_mk_matrix, written_S by assumption.
    rewrite (Hget i j Hi Hj). unfold Sim.is_link. fold a b.
    destruct (Nat.eqb_spec b n); [lia|]. simpl.
    destruct (Nat.eqb i b); destruct (Nat.eqb j a); destruct (Nat.eqb i a);
      destruct (Nat.eqb j b);
      destruct (Sim.in_module m k i && Sim.in_module m k j);
      destruct (Sim.written n m k i j); reflexivity.
Qed.

Lemma network_loop (n m k : nat) :
  (0 < m)%nat -> (k * m <= n)%nat ->
  exists W, Sim.for_range (Sim.network_body n m) (seq 0 k) (zeros2 n n) = Py.Ok W /\
            loop_inv n m k W.
Proof.
  intros Hm. induction k as [|k IH]; intros Hk.
  - exists (zeros2 n n). split; [reflexivity|]. split; [apply is_array_mk_matrix|].
    intros i j Hi Hj. unfold zeros2. rewrite get_mk_matrix by assumption. reflexivity.
  - destruct IH as (W & HW & Hinv); [lia|].
    destruct (network_body_step n m k W Hm) as (W' & HW' & Hinv'); [lia|assumption|].
    exists W'. split; [|assumption].
    rewrite seq_S, for_range_app, HW. simpl. rewrite HW'. reflexivity.
Qed.

Lemma sub_eye (n : nat) (W : matrix) :
  is_array n n W ->
  sub W (Sim.eye n)
  = Py.Ok (mk_matrix n n (fun i j => get W i j - if Nat.eqb i j then 1 else 0)).
Proof.
  intros HW. rewrite (sub_square n W (Sim.eye n) HW (is_array_mk_matrix n n _)).
  f_equal. apply mk_matrix_ext. intros i j Hi Hj. unfold Sim.eye.
  rewrite get_mk_matrix by assumption. reflexivity.
Qed.

(** The network cell when no slice is clipped. *)
Lemma network_cell_written (n m : nat) :
  (0 < m)%nat -> (Sim.round_div n m * m <= n)%nat ->
  exists W, Sim.network_cell n m = Py.Ok W /\ is_array n n W /\
    forall i j, (i < n)%nat -> (j < n)%nat ->
      get W i j = (if Sim.written n m (Sim.round_div n m) i j then 1 else 0)
                  - (if Nat.eqb i j then 1 else 0).
Proof.
  intros Hm Hr. destruct (network_loop n m _ Hm Hr) as (W & HW & HA & Hget).
  eexists. split.
  - unfold Sim.network_cell. destruct (Nat.eqb_spec m 0); [lia|].
    rewrite HW. cbn [mbind result_bind Py.bind]. apply (sub_eye n W HA).
  - split; [apply is_array_mk_matrix|]. intros i j Hi Hj.
    rewrite get_mk_matrix, (Hget i j Hi Hj) by assumption. reflexivity.
Qed.

End Network.

Section NetworkShape.
Local Open Scope R_scope.
Import Np.

Lemma written_iff (n m k i j : nat) :
  Sim.written n m k i j = true <->
  exists t, (t < k)%nat /\
    ((Sim.in_module m t i = true /\ Sim.in_module m t j = true)
     \/ Sim.is_link n m t i j = true \/ Sim.is_link n m t j i = true).
Proof.
  unfold Sim.written. rewrite existsb_exists. split.
  - intros (t & Hin & Ht). apply in_seq in Hin. exists t. split; [lia|].
    apply orb_true_iff in Ht. destruct Ht as [Ht|Ht]; [|auto].
    apply orb_true_iff in Ht. destruct Ht as [Ht|Ht]; [|auto].
    apply andb_true_iff in Ht. auto.
  - intros (t & Hlt & Ht). exists t. split; [apply in_seq; lia|].
    destruct Ht as [[H1 H2]|[H|H]]; rewrite ?H1, ?H2, ?H; simpl;
      rewrite ?orb_true_r; reflexivity.
Qed.

Lemma in_module_iff (m t i : nat) :
  (0 < m)%nat -> (Sim.in_module m t i = true <-> (i / m)%nat = t).
Proof.
  intros Hm. unfold Sim.in_module. rewrite andb_true_iff, Nat.leb_le, Nat.ltb_lt.
  pose proof (Nat.div_mod_eq i m) as E.
  pose proof (Nat.mod_upper_bound i m ltac:(lia)) as Hlt.
  split.
  - intros [H1 H2]. nia.
  - intros <-. nia.
Qed.

Lemma is_link_iff (n m t i j : nat) :
  (0 < m)%nat ->
  (Sim.is_link n m t i j = true <->
   ((t + 1) * m)%nat <> n /\ j = (i + 1)%nat /\ j = ((t + 1) * m)%nat).
Proof.
  intros Hm. unfold Sim.is_link.
  rewrite !andb_true_iff, negb_true_iff, Nat.eqb_neq, !Nat.eqb_eq.
  split.
  - intros [[H1 H2] H3]. split; [assumption|]. split; [nia|assumption].
  - intros (H1 & H2 & H3). split; [split; [assumption|nia]|assumption].
Qed.

(** With [num_feats] a multiple of [mod_size], what the loop has written
    is the pairs of one module and the pairs that join the last feature
    of a module to the first of the next. *)
Lemma written_modules (q m i j : nat) :
  (0 < m)%nat -> (i < q * m)%nat -> (j < q * m)%nat ->
  Sim.written (q * m) m q i j
  = Nat.eqb (i / m) (j / m)
    || (Nat.eqb j (i + 1) && Nat.eqb (j mod m) 0)
    || (Nat.eqb i (j + 1) && Nat.eqb (i mod m) 0).
Proof.
  intros Hm Hi Hj. apply eq_true_iff_eq. rewrite written_iff.
  rewrite !orb_true_iff, !andb_true_iff, !Nat.eqb_eq.
  pose proof (Nat.div_mod_eq i m) as Ei.
  pose proof (Nat.mod_upper_bound i m ltac:(lia)) as Hli.
  pose proof (Nat.div_mod_eq j m) as Ej.
  pose proof (Nat.mod_upper_bound j m ltac:(lia)) as Hlj.
  split.
  - intros (t & Ht & [[H1 H2]|[H|H]]).
    + apply (in_module_iff m t i Hm) in H1. apply (in_module_iff m t j Hm) in H2.
      left. left. congruence.
    + apply (is_link_iff _ m t i j Hm) in H. destruct H as (_ & H2 & H3).
      left. right. split; [assumption|]. rewrite H3. apply Nat.Div0.mod_mul.
    + apply (is_link_iff _ m t j i Hm) in H. destruct H as (_ & H2 & H3).
      right. split; [assumption|]. rewrite H3. apply Nat.Div0.mod_mul.
  - intros [[H|[H1 H2]]|[H1 H2]].
    + exists (i / m)%nat. split; [nia|]. left.
      split; apply (in_module_iff m _ _ Hm); [reflexivity|congruence].
    + assert (Hc : (1 <= j / m)%nat) by nia.
      exists (j / m - 1)%nat. split; [nia|]. right. left.
      apply (is_link_iff _ m _ i j Hm).
      replace (j / m - 1 + 1)%nat with (j / m)%nat by lia.
      split; [nia|]. split; [assumption|nia].
    + assert (Hc : (1 <= i / m)%nat) by nia.
      exists (i / m - 1)%nat. split; [nia|]. right. right.
      apply (is_link_iff _ m _ j i Hm).
      replace (i / m - 1 + 1)%nat with (i / m)%nat by lia.
      split; [nia|]. split; [assumption|nia].
Qed.

Lemma round_div_multiple (q m : nat) : (0 < m)%nat -> Sim.round_div (q * m) m = q.
Proof.
  intros Hm. unfold Sim.round_div.
  rewrite Nat.div_mul, Nat.Div0.mod_mul by lia.
  destruct (Nat.ltb_spec (2 * 0) m); [reflexivity|lia].
Qed.

(** X1. When [num_feats] is a multiple of [mod_size], the network cell
    returns a [num_feats] by [num_feats] array of zeros and ones in which
    two distinct features are joined exactly when they lie in one module or
    are the last feature of a module and the first of the next; it is
    symmetric with a zero diagonal, an adjacency matrix of the data
    model. *)
Theorem modular_network (q m : nat) :
  (0 < m)%nat ->
  exists W : matrix,
    Sim.network_cell (q * m) m = Py.Ok W /\
    Sqrt.adjacency (q * m) W /\
    forall i j, (i < q * m)%nat -> (j < q * m)%nat ->
      get W i j =
      if negb (Nat.eqb i j)
         && (Nat.eqb (i / m) (j / m)
             || (Nat.eqb j (i + 1) && Nat.eqb (j mod m) 0)
             || (Nat.eqb i (j + 1) && Nat.eqb (i mod m) 0))
      then 1 else 0.
Proof.
  intros Hm.
  destruct (network_cell_written (q * m) m Hm) as (W & HW & HA & Hget);
    [rewrite round_div_multiple by assumption; lia|].
  rewrite round_div_multiple in Hget by assumption.
  assert (Hent : forall i j, (i < q * m)%nat -> (j < q * m)%nat ->
            get W i j =
            if negb (Nat.eqb i j)
               && (Nat.eqb (i / m) (j / m)
                   || (Nat.eqb j (i + 1) && Nat.eqb (j mod m) 0)
                   || (Nat.eqb i (j + 1) && Nat.eqb (i mod m) 0))
            then 1 else 0).
  { intros i j Hi Hj. rewrite (Hget i j Hi Hj), written_modules by assumption.
    destruct (Nat.eqb_spec i j) as [->|Hne]; simpl.
    - rewrite Nat.eqb_refl. simpl. lra.
    - match goal with |- context [if ?b then 1 else 0] => destruct b end; lra. }
  exists W. split; [exact HW|]. split; [|exact Hent].
  split; [exact HA|]. split; [|split].
  - intros i j Hi Hj. rewrite (Hent i j Hi Hj), (Hent j i Hj Hi).
    rewrite (Nat.eqb_sym j i), (Nat.eqb_sym (j / m) (i / m)).
    destruct (Nat.eqb i j); simpl; [reflexivity|].
    destruct (Nat.eqb (i / m) (j / m)); simpl; [reflexivity|].
    destruct (Nat.eqb j (i + 1) && Nat.eqb (j mod m) 0);
      destruct (Nat.eqb i (j + 1) && Nat.eqb (i mod m) 0); reflexivity.
  - intros i j Hi Hj. rewrite (Hent i j Hi Hj).
    match goal with |- context [if ?b then 1 else 0] => destruct b end; lra.
  - intros i Hi. rewrite (Hent i i Hi Hi), Nat.eqb_refl. reflexivity.
Qed.

Lemma modular_network_witness :
  (0 < 2)%nat /\
  exists W : matrix,
    Sim.network_cell (3 * 2) 2 = Py.Ok W /\
    Sqrt.adjacency (3 * 2) W /\
    forall i j, (i < 3 * 2)%nat -> (j < 3 * 2)%nat ->
      get W i j =
      if negb (Nat.eqb i j)
         && (Nat.eqb (i / 2) (j / 2)
             || (Nat.eqb j (i + 1) && Nat.eqb (j mod 2) 0)
             || (Nat.eqb i (j + 1) && Nat.eqb (i mod 2) 0))
      then 1 else 0.
Proof.
  split; [lia|]. apply (modular_network 3 2). lia.
Defined.

(** X2. When rounding [num_feats / mod_size] leaves features after the
    last module, the cell still returns, but "removing the diagonal" puts
    [-1] on the diagonal of every such feature, so the result is no
    adjacency matrix. *)
Theorem leftover_features_negative_diagonal (n m : nat) :
  (0 < m)%nat -> (Sim.round_div n m * m < n)%nat ->
  exists W : matrix,
    Sim.network_cell n m = Py.Ok W /\ is_array n n W /\
    (forall i, (Sim.round_div n m * m <= i)%nat -> (i < n)%nat -> get W i i = -1) /\
    ~ Sqrt.adjacency n W.
Proof.
  intros Hm Hr.
  destruct (network_cell_written n m Hm) as (W & HW & HA & Hget); [lia|].
  assert (Hd : forall i, (Sim.round_div n m * m <= i)%nat -> (i < n)%nat ->
                 get W i i = -1).
  { intros i Hi Hn. rewrite (Hget i i Hn Hn), Nat.eqb_refl.
    destruct (Sim.written n m (Sim.round_div n m) i i) eqn:Hw; [|lra].
    exfalso. apply written_iff in Hw. destruct Hw as (t & Ht & [[H1 _]|[H|H]]).
    - unfold Sim.in_module in H1. apply andb_true_iff in H1.
      destruct H1 as [_ H1]. apply Nat.ltb_lt in H1. nia.
    - apply (is_link_iff n m t i i Hm) in H. lia.
    - apply (is_link_iff n m t i i Hm) in H. lia. }
  exists W. split; [exact HW|]. split; [exact HA|]. split; [exact Hd|].
  intros (_ & _ & _ & Hz).
  assert (Hn : (n - 1 < n)%nat) by lia.
  specialize (Hz (n - 1)%nat Hn). rewrite Hd in Hz by lia. lra.
Qed.

Lemma round_div_5_2 : Sim.round_div 5 2 = 2%nat.
Proof. reflexivity. Qed.

Lemma leftover_features_negative_diagonal_witness :
  (0 < 2)%nat /\ (Sim.round_div 5 2 * 2 < 5)%nat /\
  exists W : matrix,
    Sim.network_cell 5 2 = Py.Ok W /\ is_array 5 5 W /\
    (forall i, (Sim.round_div 5 2 * 2 <= i)%nat -> (i < 5)%nat -> get W i i = -1) /\
    ~ Sqrt.adjacency 5 W.
Proof.
  split; [lia|]. split; [rewrite round_div_5_2; lia|].
  apply (leftover_features_negative_diagonal 5 2); [lia|rewrite round_div_5_2; lia].
Defined.

(** X3. When [num_feats / mod_size] rounds up, the last round of the loop
    assigns a [mod_size] by [mod_size] block to a slice that the end of
    the array has clipped, and the cell raises [ValueError]. *)
Theorem network_cell_rounds_up (n m : nat) :
  (0 < m)%nat -> (n < Sim.round_div n m * m)%nat ->
  Sim.network_cell n m = Py.Raise (Py.ValueError "could not broadcast input array").
Proof.
  intros Hm Hr.
  pose proof (Nat.div_mod_eq n m) as E.
  pose proof (Nat.mod_upper_bound n m ltac:(lia)) as Hlt.
  assert (Hq : Sim.round_div n m = Datatypes.S (n / m)).
  { unfold Sim.round_div in *.
    destruct (Nat.ltb (2 * (n mod m)) m); [nia|].
    destruct (Nat.ltb m (2 * (n mod m))); [reflexivity|].
    destruct (Nat.even (n / m)); [nia|reflexivity]. }
  assert (Hrem : (0 < n mod m)%nat).
  { destruct (n mod m)%nat eqn:Hz; [|lia]. exfalso.
    unfold Sim.round_div in Hq. rewrite Hz in Hq.
    destruct (Nat.ltb_spec (2 * 0) m); lia. }
  assert (Hm1 : m <> 1%nat).
  { intros ->. rewrite Nat.mod_1_r in Hrem. lia. }
  destruct (network_loop n m (n / m) Hm) as (W & HW & HA & _); [nia|].
  unfold Sim.network_cell. destruct (Nat.eqb_spec m 0); [lia|].
  rewrite Hq, seq_S, for_range_app, HW. simpl.
  unfold Sim.network_body, Sim.set_slice2.
  rewrite (is_array_nrows n n W HA), (is_array_ncols_sq n W HA).
  assert (Hor : nrows (Sim.ones2 m m) = m) by apply nrows_mk_matrix.
  rewrite Hor.
  rewrite (Nat.min_l (n / m * m) n) by nia.
  rewrite (Nat.min_r ((n / m + 1) * m) n) by nia.
  unfold Sim.broadcast_to.
  destruct (Nat.eqb_spec m (n - n / m * m)); [nia|].
  destruct (Nat.eqb_spec m 1); [contradiction|]. reflexivity.
Qed.

Lemma network_cell_rounds_up_witness :
  (0 < 2)%nat /\ (3 < Sim.round_div 3 2 * 2)%nat /\
  Sim.network_cell 3 2 = Py.Raise (Py.ValueError "could not broadcast input array").
Proof.
  assert (H : Sim.round_div 3 2 = 2%nat) by reflexivity.
  split; [lia|]. split; [rewrite H; lia|].
  apply (network_cell_rounds_up 3 2); [lia|rewrite H; lia].
Defined.

End NetworkShape.

(** ** The phenotype *)

Section Phenotype.
Local Open Scope R_scope.
Import Np.

Lemma big_sum_truncate (n c : nat) (f : nat -> R) :
  (c <= n)%nat -> (forall k, (c <= k)%nat -> (k < n)%nat -> f k = 0) ->
  big_sum n f = big_sum c f.
Proof.
  intros Hc. induction n as [|n IH]; intros Hz.
  - replace c with O by lia. reflexivity.
  - destruct (Nat.eq_dec c (Datatypes.S n)) as [->|Hne]; [reflexivity|].
    simpl. rewrite IH, (Hz n) by (intros; try apply Hz; lia). lra.
Qed.

Lemma dotv_array (m n : nat) (A : matrix) (v : vector) :
  (0 < m)%nat -> is_array m n A -> length v = n ->
  dotv A v = Py.Ok (mk_vector m (fun i => big_sum n (fun k => get A i k * vget v k))).
Proof.
  intros Hm HA Hv. unfold dotv.
  rewrite (is_array_ncols m n A Hm HA), (is_array_nrows m n A HA), Hv, Nat.eqb_refl.
  reflexivity.
Qed.

Lemma addv_same (n : nat) (u v : vector) :
  length u = n -> length v = n ->
  Cells.addv u v = Py.Ok (mk_vector n (fun i => vget u i + vget v i)).
Proof.
  intros Hu Hv. unfold Cells.addv. rewrite Hu, Hv, broadcast_same. f_equal.
  apply mk_vector_ext. intros i Hi. rewrite bidx_lt by assumption. reflexivity.
Qed.

Lemma set_slice1_zeros (n c : nat) (v : vector) :
  (c <= n)%nat -> length v = c ->
  Cells.set_slice1 (zeros n) c v
  = Py.Ok (mk_vector n (fun i => if Nat.ltb i c then vget v i else 0)).
Proof.
  intros Hc Hv. unfold Cells.set_slice1, zeros.
  rewrite length_mk_vector, Hv, Nat.min_l by assumption.
  unfold Sim.broadcast_to. rewrite Nat.eqb_refl. simpl. f_equal.
  apply mk_vector_ext. intros i Hi.
  destruct (Nat.ltb_spec i c).
  - rewrite bidx_lt by assumption. reflexivity.
  - apply vget_mk_vector. assumption.
Qed.

Lemma phenotype_cell_returns (num_obsvs num_feats num_causl : nat) (X : matrix)
        (w_causl noise : vector) :
  (0 < num_obsvs)%nat -> is_array num_obsvs num_feats X ->
  length w_causl = num_causl -> (num_causl <= num_feats)%nat ->
  length noise = num_obsvs ->
  exists p : Cells.phenotype,
    Cells.phenotype_cell num_feats num_causl X w_causl noise = Py.Ok p /\
    length (Cells.w p) = num_feats /\ length (Cells.y p) = num_obsvs /\
    (forall k, (k < num_feats)%nat ->
       vget (Cells.w p) k = if Nat.ltb k num_causl then vget w_causl k else 0) /\
    (forall i, (i < num_obsvs)%nat ->
       vget (Cells.y p) i
       = big_sum num_causl (fun k => get X i k * vget w_causl k) + vget noise i).
Proof.
  intros Ho HX Hw Hc Hn.
  set (w := mk_vector num_feats (fun i => if Nat.ltb i num_causl then vget w_causl i else 0)).
  set (Xw := mk_vector num_obsvs (fun i => big_sum num_feats (fun k => get X i k * vget w k))).
  exists (Cells.mk_phenotype w (mk_vector num_obsvs (fun i => vget Xw i + vget noise i))).
  split.
  - unfold Cells.phenotype_cell.
    rewrite (set_slice1_zeros num_feats num_causl w_causl Hc Hw).
    cbn [mbind result_bind Py.bind]. fold w.
    rewrite (dotv_array num_obsvs num_feats X w Ho HX (length_mk_vector _ _)).
    cbn [mbind result_bind Py.bind]. fold Xw.
    rewrite (addv_same num_obsvs Xw noise (length_mk_vector _ _) Hn).
    reflexivity.
  - cbn [Cells.w Cells.y]. split; [apply length_mk_vector|].
    split; [apply length_mk_vector|]. split.
    + intros k Hk. unfold w. apply vget_mk_vector. assumption.
    + intros i Hi. rewrite vget_mk_vector by assumption. f_equal.
      unfold Xw. rewrite vget_mk_vector by assumption.
      rewrite (big_sum_truncate num_feats num_causl _ Hc).
      2:{ intros k Hk1 Hk2. unfold w. rewrite vget_mk_vector by assumption.
          destruct (Nat.ltb_spec k num_causl); [lia|lra]. }
      apply big_sum_ext. intros k Hk. unfold w.
      rewrite vget_mk_vector by lia.
      destruct (Nat.ltb_spec k num_causl); [reflexivity|lia].
Qed.

(** X4. The phenotype is the signal of the first [num_causl] features
    plus the noise: [w] holds [w_causl] in its first [num_causl] places
    and zero elsewhere, so no other column of [X] enters [y]. *)
Theorem phenotype_signal (num_obsvs num_feats num_causl : nat) (X : matrix)
        (w_causl noise : vector) :
  (0 < num_obsvs)%nat -> is_array num_obsvs num_feats X ->
  length w_causl = num_causl -> (num_causl <= num_feats)%nat ->
  length noise = num_obsvs ->
  exists p : Cells.phenotype,
    Cells.phenotype_cell num_feats num_causl X w_causl noise = Py.Ok p /\
    length (Cells.w p) = num_feats /\ length (Cells.y p) = num_obsvs /\
    (forall k, (k < num_feats)%nat ->
       vget (Cells.w p) k = if Nat.ltb k num_causl then vget w_causl k else 0) /\
    (forall i, (i < num_obsvs)%nat ->
       vget (Cells.y p) i
       = big_sum num_causl (fun k => get X i k * vget w_causl k) + vget noise i).
Proof. apply phenotype_cell_returns. Qed.

(** X5. With more causal features than features the assignment
    [w[:num_causl] = w_causl] cannot be broadcast, and the cell raises
    [ValueError]. *)
Theorem phenotype_too_many_causal (num_feats num_causl : nat) (X : matrix)
        (w_causl noise : vector) :
  length w_causl = num_causl -> (num_feats < num_causl)%nat -> num_causl <> 1%nat ->
  Cells.phenotype_cell num_feats num_causl X w_causl noise
  = Py.Raise (Py.ValueError "could not broadcast input array").
Proof.
  intros Hw Hc H1. unfold Cells.phenotype_cell, Cells.set_slice1, zeros.
  rewrite length_mk_vector, Hw, Nat.min_r by lia. unfold Sim.broadcast_to.
  destruct (Nat.eqb_spec num_causl num_feats); [lia|].
  destruct (Nat.eqb_spec num_causl 1); [contradiction|]. reflexivity.
Qed.

End Phenotype.

(** ** The shuffle *)

Section Shuffle.
Local Open Scope R_scope.
Import Np.

Abbreviation dict_insert := (fun (d : gmap nat nat) (kv : nat * nat) => <[kv.1 := kv.2]> d).

Lemma dict_fold_notin (kvs : list (nat * nat)) (d : gmap nat nat) (k : nat) :
  ~ List.In k (map fst kvs) -> fold_left dict_insert kvs d !! k = d !! k.
Proof.
  revert d. induction kvs as [|[k0 v0] kvs IH]; intros d Hk; simpl; [reflexivity|].
  rewrite IH by (intros H; apply Hk; right; exact H).
  apply lookup_insert_ne. intros ->. apply Hk. left. reflexivity.
Qed.

Lemma dict_fold_in (kvs : list (nat * nat)) (d : gmap nat nat) (k v : nat) :
  List.NoDup (map fst kvs) -> List.In (k, v) kvs ->
  fold_left dict_insert kvs d !! k = Some v.
Proof.
  revert d. induction kvs as [|[k0 v0] kvs IH]; intros d Hnd Hin; [destruct Hin|].
  simpl in *. inversion Hnd as [|? ? Hnot Hnd']; subst.
  destruct Hin as [E|Hin].
  - injection E as -> ->. rewrite dict_fold_notin by assumption.
    apply lookup_insert_eq.
  - apply IH; assumption.
Qed.

Lemma dict_fold_some (kvs : list (nat * nat)) (d : gmap nat nat) (k v : nat) :
  fold_left dict_insert kvs d !! k = Some v -> List.In (k, v) kvs \/ d !! k = Some v.
Proof.
  revert d. induction kvs as [|[k0 v0] kvs IH]; intros d H; simpl in *; [auto|].
  destruct (IH _ H) as [Hin|Hd]; [auto|].
  destruct (Nat.eq_dec k0 k) as [->|Hne].
  - rewrite lookup_insert_eq in Hd. injection Hd as ->. auto.
  - rewrite lookup_insert_ne in Hd by assumption. auto.
Qed.

Lemma map_fst_combine (ks vs : list nat) :
  length ks = length vs -> map fst (combine ks vs) = ks.
Proof.
  revert vs. induction ks as [|k ks IH]; intros [|v vs] H; simpl in *;
    try discriminate; [reflexivity|]. f_equal. apply IH. lia.
Qed.

Lemma in_combine_nth (ks vs : list nat) (i : nat) :
  length ks = length vs -> (i < length ks)%nat ->
  List.In (nth i ks O, nth i vs O) (combine ks vs).
Proof.
  intros Hl Hi. rewrite <- (combine_nth ks vs i O O Hl).
  apply nth_In. rewrite length_combine. lia.
Qed.

Lemma in_combine_index (ks vs : list nat) (k v : nat) :
  length ks = length vs -> List.In (k, v) (combine ks vs) ->
  exists i, (i < length ks)%nat /\ nth i ks O = k /\ nth i vs O = v.
Proof.
  intros Hl Hin. apply (In_nth _ _ (O, O)) in Hin. destruct Hin as (i & Hi & E).
  rewrite length_combine in Hi. rewrite (combine_nth ks vs i O O Hl) in E.
  injection E as E1 E2. exists i. split; [lia|auto].
Qed.

(** The dictionary of two lists of one length with distinct keys maps
    each key to the value at the same place, and nothing else. *)
Lemma dict_zip_nth (ks vs : list nat) (i : nat) :
  length ks = length vs -> List.NoDup ks -> (i < length ks)%nat ->
  Cells.dict_zip ks vs !! nth i ks O = Some (nth i vs O).
Proof.
  intros Hl Hnd Hi. unfold Cells.dict_zip. apply dict_fold_in.
  - rewrite map_fst_combine by assumption. exact Hnd.
  - apply in_combine_nth; assumption.
Qed.

Lemma dict_zip_some (ks vs : list nat) (k v : nat) :
  length ks = length vs -> Cells.dict_zip ks vs !! k = Some v ->
  exists i, (i < length ks)%nat /\ nth i ks O = k /\ nth i vs O = v.
Proof.
  intros Hl H. unfold Cells.dict_zip in H.
  destruct (dict_fold_some _ _ _ _ H) as [Hin|He].
  - apply in_combine_index; assumption.
  - rewrite lookup_empty in He. discriminate.
Qed.

Lemma dict_zip_none (ks vs : list nat) (k : nat) :
  ~ List.In k ks -> Cells.dict_zip ks vs !! k = None.
Proof.
  intros Hk. unfold Cells.dict_zip. rewrite dict_fold_notin; [apply lookup_empty|].
  intros Hin. apply Hk. apply in_map_iff in Hin. destruct Hin as ([a b] & <- & Hin).
  apply (in_combine_l _ _ _ _ Hin).
Qed.

Lemma lookup_all_ok (d : gmap nat nat) (ks : list nat) :
  (forall k, List.In k ks -> is_Some (d !! k)) ->
  exists vs, Cells.lookup_all d ks = Py.Ok vs /\ length vs = length ks /\
    forall i, (i < length ks)%nat -> d !! nth i ks O = Some (nth i vs O).
Proof.
  induction ks as [|k ks IH]; intros H.
  - exists []. split; [reflexivity|]. split; [reflexivity|]. simpl. intros i Hi. lia.
  - destruct (H k (or_introl eq_refl)) as [v Hv].
    destruct IH as (vs & Hvs & Hlen & Hnth); [intros k' Hk'; apply H; right; exact Hk'|].
    exists (v :: vs). simpl. rewrite Hv, Hvs. split; [reflexivity|].
    split; [simpl; lia|]. intros [|i] Hi; [exact Hv|]. apply Hnth. lia.
Qed.

Lemma lookup_all_missing (d : gmap nat nat) (ks : list nat) (k : nat) :
  List.In k ks -> d !! k = None ->
  Cells.lookup_all d ks = Py.Raise (Py.OtherError "KeyError").
Proof.
  induction ks as [|k0 ks IH]; intros Hin Hk; [destruct Hin|]. simpl.
  destruct (d !! k0) as [v|] eqn:E; [|reflexivity].
  destruct Hin as [->|Hin]; [congruence|]. rewrite (IH Hin Hk). reflexivity.
Qed.

(** What a shuffle of [range(n)] is. *)
Lemma shuffled_range (n : nat) (l : list nat) :
  Permutation l (seq 0 n) ->
  length l = n /\ List.NoDup l /\
  (forall i, (i < n)%nat -> (nth i l O < n)%nat) /\
  (forall k, (k < n)%nat -> List.In k l).
Proof.
  intros Hp. split; [|split; [|split]].
  - rewrite (Permutation_length Hp). apply length_seq.
  - apply (Permutation_NoDup (Permutation_sym Hp)). apply seq_NoDup.
  - intros i Hi.
    assert (Hin : List.In (nth i l O) (seq 0 n)).
    { apply (Permutation_in _ Hp). apply nth_In.
      rewrite (Permutation_length Hp), length_seq. exact Hi. }
    apply in_seq in Hin. lia.
  - intros k Hk. apply (Permutation_in _ (Permutation_sym Hp)). apply in_seq. lia.
Qed.

Lemma take_cols_ok (m n : nat) (A : matrix) (l : list nat) :
  (0 < m)%nat -> is_array m n A -> (forall i, (i < length l)%nat -> (nth i l O < n)%nat) ->
  Cells.take_cols A l
  = Py.Ok (mk_matrix m (length l) (fun i k => get A i (nth k l O))).
Proof.
  intros Hm HA Hl. unfold Cells.take_cols.
  rewrite (is_array_ncols m n A Hm HA), (is_array_nrows m n A HA).
  replace (forallb (fun k => Nat.ltb k n) l) with true; [reflexivity|].
  symmetry. apply forallb_forall. intros k Hk.
  apply (In_nth _ _ O) in Hk. destruct Hk as (i & Hi & <-).
  apply Nat.ltb_lt. apply Hl. exact Hi.
Qed.

Lemma take_rows_ok (n : nat) (A : matrix) (l : list nat) :
  is_array n n A -> (forall i, (i < length l)%nat -> (nth i l O < n)%nat) ->
  Cells.take_rows A l
  = Py.Ok (mk_matrix (length l) n (fun k j => get A (nth k l O) j)).
Proof.
  intros HA Hl. unfold Cells.take_rows.
  rewrite (is_array_ncols_sq n A HA), (is_array_nrows n n A HA).
  replace (forallb (fun k => Nat.ltb k n) l) with true; [reflexivity|].
  symmetry. apply forallb_forall. intros k Hk.
  apply (In_nth _ _ O) in Hk. destruct Hk as (i & Hi & <-).
  apply Nat.ltb_lt. apply Hl. exact Hi.
Qed.

(** The shuffling cell up to the list comprehension. *)
Lemma shuffle_cell_arrays (shuffle : list nat -> list nat) (m n c : nat) (X W : matrix) :
  (0 < m)%nat -> is_array m n X -> is_array n n W ->
  Permutation (shuffle (seq 0 n)) (seq 0 n) ->
  Cells.shuffle_cell shuffle n c X W
  = (causl ← Cells.lookup_all (Cells.dict_zip (shuffle (seq 0 n)) (seq 0 n)) (seq 0 c);
     mret (Cells.mk_shuffled (shuffle (seq 0 n))
             (Cells.dict_zip (seq 0 n) (shuffle (seq 0 n)))
             (Cells.dict_zip (shuffle (seq 0 n)) (seq 0 n))
             (mk_matrix m n (fun i k => get X i (nth k (shuffle (seq 0 n)) O)))
             (mk_matrix n n (fun i j => get W (nth i (shuffle (seq 0 n)) O)
                                          (nth j (shuffle (seq 0 n)) O)))
             causl)).
Proof.
  intros Hm HX HW Hp. destruct (shuffled_range n _ Hp) as (Hlen & _ & Hlt & _).
  unfold Cells.shuffle_cell.
  set (l := shuffle (seq 0 n)) in *. clearbody l.
  assert (Hl : forall i, (i < length l)%nat -> (nth i l O < n)%nat)
    by (intros i Hi; apply Hlt; lia).
  rewrite (take_cols_ok m n X l Hm HX Hl). cbn [mbind result_bind Py.bind].
  rewrite (take_rows_ok n W l HW Hl). cbn [mbind result_bind Py.bind].
  rewrite Hlen.
  destruct (Nat.eq_dec n O) as [Hn0|Hn0].
  - subst n. destruct l; [|discriminate]. reflexivity.
  - rewrite (take_cols_ok n n _ l ltac:(lia) (is_array_mk_matrix n n _) Hl).
    cbn [mbind result_bind Py.bind]. rewrite Hlen.
    replace (mk_matrix n n (fun i k =>
               get (mk_matrix n n (fun k0 j => get W (nth k0 l O) j)) i (nth k l O)))
      with (mk_matrix n n (fun i j => get W (nth i l O) (nth j l O))); [reflexivity|].
    apply mk_matrix_ext. intros i j Hi Hj.
    rewrite get_mk_matrix by (try assumption; apply Hlt; assumption). reflexivity.
Qed.

End Shuffle.

Section ShuffleCell.
Local Open Scope R_scope.
Import Np.

Variable shuffle : list nat -> list nat.

Lemma inverse_dict_lookup (n : nat) (l : list nat) (i : nat) :
  Permutation l (seq 0 n) -> (i < n)%nat ->
  Cells.dict_zip (seq 0 n) l !! i = Some (nth i l O) /\
  Cells.dict_zip l (seq 0 n) !! nth i l O = Some i.
Proof.
  intros Hp Hi. destruct (shuffled_range n l Hp) as (Hlen & Hnd & _ & _).
  assert (E : nth i (seq 0 n) O = i) by (rewrite seq_nth by lia; reflexivity).
  split.
  - rewrite <- E at 1.
    apply dict_zip_nth; rewrite ?length_seq; [lia|apply seq_NoDup|lia].
  - rewrite <- E at 2.
    apply dict_zip_nth; rewrite ?length_seq; [lia|assumption|lia].
Qed.

Lemma inverse_dict_some (n : nat) (l : list nat) (k i : nat) :
  Permutation l (seq 0 n) -> Cells.dict_zip l (seq 0 n) !! k = Some i ->
  (i < n)%nat /\ nth i l O = k.
Proof.
  intros Hp H. destruct (shuffled_range n l Hp) as (Hlen & _ & _ & _).
  apply dict_zip_some in H; [|rewrite length_seq; lia].
  destruct H as (j & Hj & Hk & Hv). rewrite seq_nth in Hv by lia. simpl in Hv.
  subst i. split; [lia|assumption].
Qed.

Lemma shuffle_cell_returns (m n c : nat) (X W : matrix) :
  (0 < m)%nat -> is_array m n X -> is_array n n W -> (c <= n)%nat ->
  Permutation (shuffle (seq 0 n)) (seq 0 n) ->
  exists causl : list nat,
    Cells.shuffle_cell shuffle n c X W
    = Py.Ok (Cells.mk_shuffled (shuffle (seq 0 n))
               (Cells.dict_zip (seq 0 n) (shuffle (seq 0 n)))
               (Cells.dict_zip (shuffle (seq 0 n)) (seq 0 n))
               (mk_matrix m n (fun i k => get X i (nth k (shuffle (seq 0 n)) O)))
               (mk_matrix n n (fun i j => get W (nth i (shuffle (seq 0 n)) O)
                                            (nth j (shuffle (seq 0 n)) O)))
               causl) /\
    length causl = c /\
    forall k, (k < c)%nat ->
      (nth k causl O < n)%nat /\ nth (nth k causl O) (shuffle (seq 0 n)) O = k.
Proof.
  intros Hm HX HW Hc Hp.
  destruct (shuffled_range n _ Hp) as (Hlen & Hnd & Hlt & Hin).
  destruct (lookup_all_ok (Cells.dict_zip (shuffle (seq 0 n)) (seq 0 n)) (seq 0 c))
    as (causl & Hok & Hl & Hnth).
  { intros k Hk. apply in_seq in Hk.
    destruct (In_nth _ _ O (Hin k ltac:(lia))) as (i & Hi & <-).
    exists i. apply inverse_dict_lookup; [assumption|lia]. }
  rewrite length_seq in Hl, Hnth.
  exists causl. split; [|split; [exact Hl|]].
  - rewrite (shuffle_cell_arrays shuffle m n c X W Hm HX HW Hp), Hok. reflexivity.
  - intros k Hk. specialize (Hnth k Hk). rewrite seq_nth in Hnth by assumption.
    simpl in Hnth. apply (inverse_dict_some n _ _ _ Hp Hnth).
Qed.

(** X6. After the shuffle, [map_indices] and [map_indices_r] are inverse
    to each other on the features: the first sends a new place to the
    feature that went there, the second sends the feature back to its
    place. *)
Theorem shuffle_maps_inverse (m n c : nat) (X W : matrix) :
  (0 < m)%nat -> is_array m n X -> is_array n n W -> (c <= n)%nat ->
  Permutation (shuffle (seq 0 n)) (seq 0 n) ->
  exists r : Cells.shuffled,
    Cells.shuffle_cell shuffle n c X W = Py.Ok r /\
    (forall i, (i < n)%nat ->
       exists k, (k < n)%nat /\ Cells.map_indices r !! i = Some k /\
                 Cells.map_indices_r r !! k = Some i) /\
    (forall k, (k < n)%nat ->
       exists i, (i < n)%nat /\ Cells.map_indices_r r !! k = Some i /\
                 Cells.map_indices r !! i = Some k).
Proof.
  intros Hm HX HW Hc Hp.
  destruct (shuffle_cell_returns m n c X W Hm HX HW Hc Hp) as (causl & Hr & _).
  destruct (shuffled_range n _ Hp) as (Hlen & Hnd & Hlt & Hin).
  eexists. split; [exact Hr|]. cbn [Cells.map_indices Cells.map_indices_r]. split.
  - intros i Hi. exists (nth i (shuffle (seq 0 n)) O).
    split; [apply Hlt; assumption|]. apply inverse_dict_lookup; assumption.
  - intros k Hk. destruct (In_nth _ _ O (Hin k Hk)) as (i & Hi & <-).
    exists i. split; [lia|].
    destruct (inverse_dict_lookup n _ i Hp ltac:(lia)) as [H1 H2]. auto.
Qed.

(** X7. The shuffled network is the old one with rows and columns
    renamed alike, [W_new[i, j] = W[l[i], l[j]]] for the shuffled list
    [l], and it is again an adjacency matrix when the old one is. *)
Theorem shuffle_keeps_adjacency (m n c : nat) (X W : matrix) :
  (0 < m)%nat -> is_array m n X -> Sqrt.adjacency n W -> (c <= n)%nat ->
  Permutation (shuffle (seq 0 n)) (seq 0 n) ->
  exists r : Cells.shuffled,
    Cells.shuffle_cell shuffle n c X W = Py.Ok r /\
    (forall i j, (i < n)%nat -> (j < n)%nat ->
       get (Cells.W r) i j
       = get W (nth i (Cells.map_indices_l r) O) (nth j (Cells.map_indices_l r) O)) /\
    Sqrt.adjacency n (Cells.W r).
Proof.
  intros Hm HX (HW & Hs & Hn & Hz) Hc Hp.
  destruct (shuffle_cell_returns m n c X W Hm HX HW Hc Hp) as (causl & Hr & _).
  destruct (shuffled_range n _ Hp) as (Hlen & Hnd & Hlt & Hin).
  eexists. split; [exact Hr|]. cbn [Cells.W Cells.map_indices_l].
  assert (Hget : forall i j, (i < n)%nat -> (j < n)%nat ->
            get (mk_matrix n n (fun i j => get W (nth i (shuffle (seq 0 n)) O)
                                             (nth j (shuffle (seq 0 n)) O))) i j
            = get W (nth i (shuffle (seq 0 n)) O) (nth j (shuffle (seq 0 n)) O))
    by (intros i j Hi Hj; rewrite get_mk_matrix by assumption; reflexivity).
  split; [exact Hget|]. split; [apply is_array_mk_matrix|]. split; [|split].
  - intros i j Hi Hj. rewrite !Hget by assumption. apply Hs; apply Hlt; assumption.
  - intros i j Hi Hj. rewrite Hget by assumption. apply Hn; apply Hlt; assumption.
  - intros i Hi. rewrite Hget by assumption. apply Hz, Hlt. assumption.
Qed.

(** X8. [causl] lists, for each causal feature, the column of the
    shuffled [X] that holds it: the shuffled list has feature [k] at place
    [causl[k]], and that column of the new [X] is column [k] of the old. *)
Theorem causl_tracks_causal_features (m n c : nat) (X W : matrix) :
  (0 < m)%nat -> is_array m n X -> is_array n n W -> (c <= n)%nat ->
  Permutation (shuffle (seq 0 n)) (seq 0 n) ->
  exists r : Cells.shuffled,
    Cells.shuffle_cell shuffle n c X W = Py.Ok r /\
    length (Cells.causl r) = c /\
    forall k, (k < c)%nat ->
      (nth k (Cells.causl r) O < n)%nat /\
      nth (nth k (Cells.causl r) O) (Cells.map_indices_l r) O = k /\
      forall i, (i < m)%nat -> get (Cells.X r) i (nth k (Cells.causl r) O) = get X i k.
Proof.
  intros Hm HX HW Hc Hp.
  destruct (shuffle_cell_returns m n c X W Hm HX HW Hc Hp) as (causl & Hr & Hl & Hk).
  eexists. split; [exact Hr|]. cbn [Cells.causl Cells.X Cells.map_indices_l].
  split; [exact Hl|]. intros k Hkc. destruct (Hk k Hkc) as [H1 H2].
  split; [exact H1|]. split; [exact H2|].
  intros i Hi. rewrite get_mk_matrix by assumption. rewrite H2. reflexivity.
Qed.

(** X9. With more causal features than features, [map_indices_r] has no
    key [num_feats] and the list comprehension raises [KeyError]. *)
Theorem causl_key_error (m n c : nat) (X W : matrix) :
  (0 < m)%nat -> is_array m n X -> is_array n n W -> (n < c)%nat ->
  Permutation (shuffle (seq 0 n)) (seq 0 n) ->
  Cells.shuffle_cell shuffle n c X W = Py.Raise (Py.OtherError "KeyError").
Proof.
  intros Hm HX HW Hc Hp.
  rewrite (shuffle_cell_arrays shuffle m n c X W Hm HX HW Hp).
  rewrite (lookup_all_missing _ _ n); [reflexivity|apply in_seq; lia|].
  apply dict_zip_none. intros Hin.
  apply (Permutation_in _ Hp) in Hin. apply in_seq in Hin. lia.
Qed.

(** X10. The phenotype made before the shuffle is, in terms of the
    shuffled [X], the signal of the columns listed in [causl] plus the
    noise. *)
Theorem phenotype_after_shuffle (m n c : nat) (X W : matrix) (w_causl noise : vector) :
  (0 < m)%nat -> is_array m n X -> is_array n n W ->
  length w_causl = c -> (c <= n)%nat -> length noise = m ->
  Permutation (shuffle (seq 0 n)) (seq 0 n) ->
  exists (p : Cells.phenotype) (r : Cells.shuffled),
    Cells.phenotype_cell n c X w_causl noise = Py.Ok p /\
    Cells.shuffle_cell shuffle n c X W = Py.Ok r /\
    forall i, (i < m)%nat ->
      vget (Cells.y p) i
      = big_sum c (fun k => get (Cells.X r) i (nth k (Cells.causl r) O) * vget w_causl k)
        + vget noise i.
Proof.
  intros Hm HX HW Hw Hc Hn Hp.
  destruct (phenotype_cell_returns m n c X w_causl noise Hm HX Hw Hc Hn)
    as (p & Hpc & _ & _ & _ & Hy).
  destruct (shuffle_cell_returns m n c X W Hm HX HW Hc Hp) as (causl & Hr & Hl & Hk).
  exists p. eexists. split; [exact Hpc|]. split; [exact Hr|].
  cbn [Cells.causl Cells.X]. intros i Hi. rewrite (Hy i Hi). f_equal.
  apply big_sum_ext. intros k Hkc. destruct (Hk k Hkc) as [H1 H2].
  rewrite get_mk_matrix by assumption. rewrite H2. reflexivity.
Qed.

End ShuffleCell.

(** ** More on the square root and its check *)

Section GramLemmas.
Local Open Scope R_scope.
Import Np.

(** The quadratic form of a Gram matrix is a sum of squares. *)
Lemma gram_quadratic (p q : nat) (a : nat -> nat -> R) (x : nat -> R) :
  big_sum p (fun i => big_sum p (fun j =>
    x i * big_sum q (fun k => a k i * a k j) * x j))
  = big_sum q (fun k => big_sum p (fun i => a k i * x i)
                        * big_sum p (fun i => a k i * x i)).
Proof.
  rewrite (big_sum_ext q _ (fun k => big_sum p (fun i => big_sum p (fun j =>
             (a k i * x i) * (a k j * x j))))).
  2:{ intros k Hk. rewrite <- big_sum_scal_r. apply big_sum_ext. intros i Hi.
      rewrite <- big_sum_scal_l. reflexivity. }
  rewrite (big_sum_swap q p). apply big_sum_ext. intros i Hi.
  rewrite (big_sum_swap q p). apply big_sum_ext. intros j Hj.
  rewrite <- big_sum_scal_l, <- big_sum_scal_r.
  apply big_sum_ext. intros k Hk. lra.
Qed.

Lemma in_concat_mk_matrix (m n : nat) (f : nat -> nat -> R) (x : R) :
  List.In x (concat (mk_matrix m n f)) <->
  exists i j, (i < m)%nat /\ (j < n)%nat /\ x = f i j.
Proof.
  rewrite in_concat. unfold mk_matrix, mk_vector. split.
  - intros (row & Hrow & Hx). apply in_map_iff in Hrow.
    destruct Hrow as (i & <- & Hi). apply in_map_iff in Hx.
    destruct Hx as (j & <- & Hj). apply in_seq in Hi. apply in_seq in Hj.
    exists i, j. repeat split; lia.
  - intros (i & j & Hi & Hj & ->). exists (map (f i) (seq 0 n)). split.
    + apply in_map_iff. exists i. split; [reflexivity|apply in_seq; lia].
    + apply in_map_iff. exists j. split; [reflexivity|apply in_seq; lia].
Qed.

(** The fold that [np.max] makes: its result is an element and is at
    least every element. *)
Lemma fold_Rmax_spec (l : list R) (x : R) :
  (x <= fold_left Rmax l x /\ forall y, List.In y l -> y <= fold_left Rmax l x) /\
  (fold_left Rmax l x = x \/ List.In (fold_left Rmax l x) l).
Proof.
  revert x. induction l as [|a l IH]; intros x; simpl.
  - split; [split; [lra|intros y []]|left; reflexivity].
  - destruct (IH (Rmax x a)) as [[H1 H2] H3].
    pose proof (Rmax_l x a). pose proof (Rmax_r x a). split; [split|].
    + lra.
    + intros y [<-|Hy]; [lra|apply H2; assumption].
    + destruct H3 as [H3|H3]; [|right; right; exact H3].
      rewrite H3. unfold Rmax. destruct (Rle_dec x a); [right; left|left]; reflexivity.
Qed.

Lemma max_mk_matrix (p : nat) (f : nat -> nat -> R) :
  (0 < p)%nat ->
  exists d, max (mk_matrix p p f) = Py.Ok d /\
    (forall i j, (i < p)%nat -> (j < p)%nat -> f i j <= d) /\
    (exists i j, (i < p)%nat /\ (j < p)%nat /\ d = f i j).
Proof.
  intros Hp. unfold max.
  destruct (concat (mk_matrix p p f)) as [|x xs] eqn:E.
  - exfalso. assert (Hin : List.In (f O O) (concat (mk_matrix p p f)))
      by (apply in_concat_mk_matrix; exists O, O; repeat split; lia).
    rewrite E in Hin. destruct Hin.
  - destruct (fold_Rmax_spec xs x) as [[H1 H2] H3].
    exists (fold_left Rmax xs x). split; [reflexivity|]. split.
    + intros i j Hi Hj.
      assert (Hin : List.In (f i j) (x :: xs))
        by (rewrite <- E; apply in_concat_mk_matrix; exists i, j; auto).
      destruct Hin as [<-|Hin]; [exact H1|apply H2; exact Hin].
    + apply in_concat_mk_matrix. rewrite E.
      destruct H3 as [->|H3]; [left; reflexivity|right; exact H3].
Qed.

End GramLemmas.

Section CheckCell.
Local Open Scope R_scope.
Import Np.

(** X11. On two [p] by [p] arrays the checking cell raises nothing; the
    number it prints is non-negative, bounds the distance between every
    entry of [S.T S] and of [L], is attained at some entry, and is zero
    exactly when [S.T S] and [L] agree in every entry. *)
Theorem check_cell_meaning (p : nat) (S L : matrix) :
  (0 < p)%nat -> is_array p p S -> is_array p p L ->
  exists d : R,
    Sqrt.check_cell S L = Py.Ok d /\ 0 <= d /\
    (forall i j, (i < p)%nat -> (j < p)%nat ->
       Rabs (big_sum p (fun k => get S k i * get S k j) - get L i j) <= d) /\
    (exists i j, (i < p)%nat /\ (j < p)%nat /\
       d = Rabs (big_sum p (fun k => get S k i * get S k j) - get L i j)) /\
    (d = 0 <-> forall i j, (i < p)%nat -> (j < p)%nat ->
                 big_sum p (fun k => get S k i * get S k j) = get L i j).
Proof.
  intros Hp HS HL.
  set (dev := fun i j => Rabs (big_sum p (fun k => get S k i * get S k j) - get L i j)).
  destruct (max_mk_matrix p dev Hp) as (d & Hd & Hub & (i0 & j0 & Hi0 & Hj0 & Hat)).
  assert (Hc : Sqrt.check_cell S L = Py.Ok d).
  { unfold Sqrt.check_cell. rewrite (gram_square p S HS).
    cbn [mbind result_bind Py.bind].
    rewrite (sub_square p _ L (is_array_mk_matrix p p _) HL).
    cbn [mbind result_bind Py.bind]. rewrite abs_mk_matrix, <- Hd. f_equal.
    apply mk_matrix_ext. intros i j Hi Hj. unfold dev.
    rewrite get_mk_matrix by assumption. reflexivity. }
  exists d. split; [exact Hc|].
  assert (H0 : 0 <= d) by (rewrite Hat; apply Rabs_pos).
  split; [exact H0|]. split; [exact Hub|]. split; [exists i0, j0; auto|]. split.
  - intros Hz i j Hi Hj. specialize (Hub i j Hi Hj). unfold dev in Hub.
    rewrite Hz in Hub. apply Rminus_diag_uniq.
    destruct (Req_dec (big_sum p (fun k => get S k i * get S k j) - get L i j) 0)
      as [E|E]; [exact E|].
    apply Rabs_pos_lt in E. lra.
  - intros H. rewrite Hat. unfold dev. rewrite (H i0 j0 Hi0 Hj0).
    rewrite Rminus_diag_eq by reflexivity. apply Rabs_R0.
Qed.

Lemma check_cell_meaning_witness :
  (0 < 2)%nat /\ is_array 2 2 [[0; 0]; [0; 1]] /\ is_array 2 2 L_asym /\
  exists d : R,
    Sqrt.check_cell [[0; 0]; [0; 1]] L_asym = Py.Ok d /\ 0 <= d /\
    (forall i j, (i < 2)%nat -> (j < 2)%nat ->
       Rabs (big_sum 2 (fun k => get [[0; 0]; [0; 1]] k i * get [[0; 0]; [0; 1]] k j)
             - get L_asym i j) <= d) /\
    (exists i j, (i < 2)%nat /\ (j < 2)%nat /\
       d = Rabs (big_sum 2 (fun k => get [[0; 0]; [0; 1]] k i * get [[0; 0]; [0; 1]] k j)
                 - get L_asym i j)) /\
    (d = 0 <-> forall i j, (i < 2)%nat -> (j < 2)%nat ->
                 big_sum 2 (fun k => get [[0; 0]; [0; 1]] k i * get [[0; 0]; [0; 1]] k j)
                 = get L_asym i j).
Proof.
  split; [lia|]. split; [apply is_array_2_2|]. split; [apply is_array_2_2|].
  apply (check_cell_meaning 2 [[0; 0]; [0; 1]] L_asym);
    [lia|apply is_array_2_2|apply is_array_2_2].
Defined.

End CheckCell.

Section Penalty.
Local Open Scope R_scope.
Import Np.

Lemma sqrt_entry_gram (p : nat) (ev : vector) (U : matrix) (i j : nat) :
  big_sum p (fun k => sqrt_entry ev U k i * sqrt_entry ev U k j)
  = big_sum p (fun k => get U i k * Rmax 0 (vget ev k) * get U j k).
Proof.
  apply big_sum_ext. intros k Hk. unfold sqrt_entry.
  assert (Hs : R_sqrt.sqrt (Rmax 0 (vget ev k)) * R_sqrt.sqrt (Rmax 0 (vget ev k))
               = Rmax 0 (vget ev k)) by (apply sqrt_sqrt, Rmax_l).
  set (r := R_sqrt.sqrt (Rmax 0 (vget ev k))) in *.
  replace (r * get U i k * (r * get U j k)) with (get U i k * (r * r) * get U j k)
    by lra.
  rewrite Hs. reflexivity.
Qed.

Lemma sqrt_times_vector (p : nat) (ev : vector) (U : matrix) (x : vector) :
  length x = p ->
  dotv (mk_matrix p p (sqrt_entry ev U)) x
  = Py.Ok (mk_vector p (fun k => big_sum p (fun i => sqrt_entry ev U k i * vget x i))).
Proof.
  intros Hx. rewrite (dotv_square p _ x (is_array_mk_matrix p p _) Hx). f_equal.
  apply mk_vector_ext. intros k Hk. apply big_sum_ext. intros i Hi.
  rewrite get_mk_matrix by assumption. reflexivity.
Qed.

Lemma squared_norm_sqrt (p : nat) (ev : vector) (U : matrix) (x : vector) :
  big_sum p (fun i => big_sum p (fun j =>
    vget x i * big_sum p (fun k => sqrt_entry ev U k i * sqrt_entry ev U k j) * vget x j))
  = big_sum p (fun k =>
      vget (mk_vector p (fun k => big_sum p (fun i => sqrt_entry ev U k i * vget x i))) k
      * vget (mk_vector p (fun k => big_sum p (fun i => sqrt_entry ev U k i * vget x i))) k).
Proof.
  rewrite (gram_quadratic p p (sqrt_entry ev U) (vget x)).
  apply big_sum_ext. intros k Hk. rewrite vget_mk_vector by assumption. reflexivity.
Qed.

(** X12. Whatever eigenvalues and eigenvectors of the right shapes the
    solver returns for [L], exact or not, the Gram matrix of the [S] of
    the cell is [U diag(max(0, evals)) U.T], and its quadratic form at any
    [x] is the squared norm of [S x], hence non-negative. *)
Theorem sqrt_gram_any_solver (eigh : Sqrt.eigensolver) (p : nat) (W : matrix)
        (ev : vector) (U : matrix) :
  is_array p p W ->
  (forall L, Sqrt.laplacian W = Py.Ok L -> eigh L = Py.Ok (ev, U)) ->
  length ev = p -> is_array p p U ->
  exists (env : Sqrt.cell_env) (G : matrix),
    Sqrt.sqrt_cell eigh W = Py.Ok env /\
    matmul (T (Sqrt.S env)) (Sqrt.S env) = Py.Ok G /\
    (forall i j, (i < p)%nat -> (j < p)%nat ->
       get G i j = big_sum p (fun k => get U i k * Rmax 0 (vget ev k) * get U j k)) /\
    forall x : vector, length x = p ->
      exists Sx : vector,
        dotv (Sqrt.S env) x = Py.Ok Sx /\
        Sqrt.quadratic_form p G x = big_sum p (fun k => vget Sx k * vget Sx k) /\
        0 <= Sqrt.quadratic_form p G x.
Proof.
  intros HW He Hev HU.
  specialize (He _ (laplacian_square p W HW)).
  eexists. eexists. split; [apply (sqrt_cell_value eigh p W ev U HW He Hev HU)|].
  cbn [Sqrt.S]. split; [apply gram_sqrt|]. split.
  - intros i j Hi Hj. rewrite get_mk_matrix by assumption. reflexivity.
  - intros x Hx. eexists. split; [apply (sqrt_times_vector p ev U x Hx)|].
    assert (Hq : Sqrt.quadratic_form p
                   (mk_matrix p p (fun i j =>
                      big_sum p (fun k => get U i k * Rmax 0 (vget ev k) * get U j k))) x
                 = big_sum p (fun k =>
                     vget (mk_vector p (fun k => big_sum p (fun i =>
                             sqrt_entry ev U k i * vget x i))) k
                     * vget (mk_vector p (fun k => big_sum p (fun i =>
                               sqrt_entry ev U k i * vget x i))) k)).
    { rewrite <- squared_norm_sqrt. unfold Sqrt.quadratic_form.
      apply big_sum_ext. intros i Hi. apply big_sum_ext. intros j Hj.
      rewrite get_mk_matrix, sqrt_entry_gram by assumption. reflexivity. }
    split; [exact Hq|]. rewrite Hq. apply big_sum_nonneg. intros k _.
    apply Rle_0_sqr.
Qed.

(** X13. For an adjacency matrix and an exact eigen-decomposition, the
    penalty [beta.T L beta] is the squared norm of [S beta], and twice it
    is the sum over all pairs of features of [W[i, j] (beta_i - beta_j)^2]:
    the smoothness of [beta] over the network. *)
Theorem penalty_is_squared_norm (eigh : Sqrt.eigensolver) (p : nat) (W : matrix)
        (ev : vector) (U : matrix) :
  Sqrt.adjacency p W ->
  (forall L, Sqrt.laplacian W = Py.Ok L ->
     eigh L = Py.Ok (ev, U) /\ Sqrt.eigen_decomposition p L ev U) ->
  exists env : Sqrt.cell_env,
    Sqrt.sqrt_cell eigh W = Py.Ok env /\
    forall beta : vector, length beta = p ->
      exists Sb : vector,
        dotv (Sqrt.S env) beta = Py.Ok Sb /\
        Sqrt.quadratic_form p (Sqrt.L env) beta
        = big_sum p (fun k => vget Sb k * vget Sb k) /\
        2 * Sqrt.quadratic_form p (Sqrt.L env) beta
        = big_sum p (fun i => big_sum p (fun j =>
            get W i j * (vget beta i - vget beta j) * (vget beta i - vget beta j))).
Proof.
  intros (HW & Hs & Hn & _) Heig.
  destruct (Heig _ (laplacian_square p W HW)) as [He Hdec].
  pose proof Hdec as (Hev & HU & Ho & Hd).
  eexists. split; [apply (sqrt_cell_value eigh p W ev U HW He Hev HU)|].
  cbn [Sqrt.S Sqrt.L]. intros beta Hb.
  assert (Hq : Sqrt.quadratic_form p (mk_matrix p p (laplacian_entry p W)) beta
               = big_sum p (fun i => big_sum p (fun j =>
                   vget beta i * laplacian_entry p W i j * vget beta j))).
  { unfold Sqrt.quadratic_form. apply big_sum_ext. intros i Hi.
    apply big_sum_ext. intros j Hj. rewrite get_mk_matrix by assumption.
    reflexivity. }
  eexists. split; [apply (sqrt_times_vector p ev U beta Hb)|]. split.
  - rewrite <- squared_norm_sqrt, Hq. apply big_sum_ext. intros i Hi.
    apply big_sum_ext. intros j Hj. f_equal. f_equal.
    rewrite sqrt_entry_gram, <- (lower_sym_laplacian p W i j Hs Hi Hj).
    rewrite (Hd i j Hi Hj). apply big_sum_ext. intros k Hk.
    rewrite Rmax_right; [reflexivity|].
    apply (eigenvalue_nonneg p W ev U k Hs Hn Hdec Hk).
  - rewrite Hq. apply (laplacian_quadratic p W (vget beta) Hs).
Qed.

(** X14. [np.diag(degree) - W] raises [ValueError] exactly when [W] is
    neither square nor a single row nor a single column; a single row or
    column is broadcast instead of being rejected. *)
Theorem laplacian_shape_error (m n : nat) (W : matrix) :
  (0 < m)%nat -> (0 < n)%nat -> is_array m n W ->
  (m <> n /\ m <> 1%nat /\ n <> 1%nat ->
   Sqrt.laplacian W = Py.Raise (Py.ValueError "operands could not be broadcast together")) /\
  (m = n \/ m = 1%nat \/ n = 1%nat ->
   exists L, Sqrt.laplacian W = Py.Ok L /\ is_array (Nat.max m n) n L).
Proof.
  intros Hm Hn HW.
  assert (Hd : is_array n n (diag (sum_axis0 W))).
  { unfold diag, sum_axis0. rewrite length_mk_vector, (is_array_ncols m n W Hm HW).
    apply is_array_mk_matrix. }
  unfold Sqrt.laplacian, sub.
  rewrite (is_array_nrows n n _ Hd), (is_array_ncols_sq n _ Hd).
  rewrite (is_array_nrows m n W HW), (is_array_ncols m n W Hm HW).
  rewrite (broadcast_same n). unfold broadcast. split.
  - intros (H1 & H2 & H3).
    destruct (Nat.eqb_spec n m); [lia|]. destruct (Nat.eqb_spec n 1); [lia|].
    destruct (Nat.eqb_spec m 1); [lia|]. reflexivity.
  - intros H.
    destruct (Nat.eqb_spec n m) as [E|E].
    + eexists. split; [reflexivity|]. replace (Nat.max m n) with n by lia.
      apply is_array_mk_matrix.
    + destruct (Nat.eqb_spec n 1) as [E1|E1].
      * eexists. split; [reflexivity|]. replace (Nat.max m n) with m by lia.
        apply is_array_mk_matrix.
      * destruct (Nat.eqb_spec m 1) as [E2|E2]; [|lia].
        eexists. split; [reflexivity|]. replace (Nat.max m n) with n by lia.
        apply is_array_mk_matrix.
Qed.

End Penalty.

(** ** Worked examples of the simulation cells *)

Section CellsExamples.
Local Open Scope R_scope.
Import Np.

Lemma is_array_X_small : is_array 1 2 X_small.
Proof. split; [reflexivity|]. repeat constructor. Qed.

Lemma shuffle_rev_range (n : nat) : Permutation (shuffle_rev (seq 0 n)) (seq 0 n).
Proof. apply Permutation_sym, Permutation_rev. Qed.

Lemma phenotype_signal_witness :
  (0 < 1)%nat /\ is_array 1 2 X_small /\ length w_causl_small = 1%nat /\
  (1 <= 2)%nat /\ length noise_small = 1%nat /\
  exists p : Cells.phenotype,
    Cells.phenotype_cell 2 1 X_small w_causl_small noise_small = Py.Ok p /\
    length (Cells.w p) = 2%nat /\ length (Cells.y p) = 1%nat /\
    (forall k, (k < 2)%nat ->
       vget (Cells.w p) k = if Nat.ltb k 1 then vget w_causl_small k else 0) /\
    (forall i, (i < 1)%nat ->
       vget (Cells.y p) i
       = big_sum 1 (fun k => get X_small i k * vget w_causl_small k)
         + vget noise_small i).
Proof.
  split; [lia|]. split; [apply is_array_X_small|]. split; [reflexivity|].
  split; [lia|]. split; [reflexivity|].
  apply (phenotype_signal 1 2 1 X_small w_causl_small noise_small);
    [lia|apply is_array_X_small|reflexivity|lia|reflexivity].
Defined.

Lemma phenotype_too_many_causal_witness :
  length [1; 1] = 2%nat /\ (1 < 2)%nat /\ 2%nat <> 1%nat /\
  Cells.phenotype_cell 1 2 [[1]] [1; 1] noise_small
  = Py.Raise (Py.ValueError "could not broadcast input array").
Proof.
  split; [reflexivity|]. split; [lia|]. split; [lia|].
  apply (phenotype_too_many_causal 1 2 [[1]] [1; 1] noise_small);
    [reflexivity|lia|lia].
Defined.

Lemma shuffle_maps_inverse_witness :
  (0 < 1)%nat /\ is_array 1 2 X_small /\ is_array 2 2 W_edge /\ (1 <= 2)%nat /\
  Permutation (shuffle_rev (seq 0 2)) (seq 0 2) /\
  exists r : Cells.shuffled,
    Cells.shuffle_cell shuffle_rev 2 1 X_small W_edge = Py.Ok r /\
    (forall i, (i < 2)%nat ->
       exists k, (k < 2)%nat /\ Cells.map_indices r !! i = Some k /\
                 Cells.map_indices_r r !! k = Some i) /\
    (forall k, (k < 2)%nat ->
       exists i, (i < 2)%nat /\ Cells.map_indices_r r !! k = Some i /\
                 Cells.map_indices r !! i = Some k).
Proof.
  split; [lia|]. split; [apply is_array_X_small|]. split; [apply is_array_2_2|].
  split; [lia|]. split; [apply shuffle_rev_range|].
  apply (shuffle_maps_inverse shuffle_rev 1 2 1 X_small W_edge);
    [lia|apply is_array_X_small|apply is_array_2_2|lia|apply shuffle_rev_range].
Defined.

Lemma shuffle_keeps_adjacency_witness :
  (0 < 1)%nat /\ is_array 1 2 X_small /\ Sqrt.adjacency 2 W_edge /\ (1 <= 2)%nat /\
  Permutation (shuffle_rev (seq 0 2)) (seq 0 2) /\
  exists r : Cells.shuffled,
    Cells.shuffle_cell shuffle_rev 2 1 X_small W_edge = Py.Ok r /\
    (forall i j, (i < 2)%nat -> (j < 2)%nat ->
       get (Cells.W r) i j
       = get W_edge (nth i (Cells.map_indices_l r) O) (nth j (Cells.map_indices_l r) O)) /\
    Sqrt.adjacency 2 (Cells.W r).
Proof.
  split; [lia|]. split; [apply is_array_X_small|]. split; [apply adjacency_W_edge|].
  split; [lia|]. split; [apply shuffle_rev_range|].
  apply (shuffle_keeps_adjacency shuffle_rev 1 2 1 X_small W_edge);
    [lia|apply is_array_X_small|apply adjacency_W_edge|lia|apply shuffle_rev_range].
Defined.

Lemma causl_tracks_causal_features_witness :
  (0 < 1)%nat /\ is_array 1 2 X_small /\ is_array 2 2 W_edge /\ (1 <= 2)%nat /\
  Permutation (shuffle_rev (seq 0 2)) (seq 0 2) /\
  exists r : Cells.shuffled,
    Cells.shuffle_cell shuffle_rev 2 1 X_small W_edge = Py.Ok r /\
    length (Cells.causl r) = 1%nat /\
    forall k, (k < 1)%nat ->
      (nth k (Cells.causl r) O < 2)%nat /\
      nth (nth k (Cells.causl r) O) (Cells.map_indices_l r) O = k /\
      forall i, (i < 1)%nat ->
        get (Cells.X r) i (nth k (Cells.causl r) O) = get X_small i k.
Proof.
  split; [lia|]. split; [apply is_array_X_small|]. split; [apply is_array_2_2|].
  split; [lia|]. split; [apply shuffle_rev_range|].
  apply (causl_tracks_causal_features shuffle_rev 1 2 1 X_small W_edge);
    [lia|apply is_array_X_small|apply is_array_2_2|lia|apply shuffle_rev_range].
Defined.

Lemma causl_key_error_witness :
  (0 < 1)%nat /\ is_array 1 2 X_small /\ is_array 2 2 W_edge /\ (2 < 3)%nat /\
  Permutation (shuffle_rev (seq 0 2)) (seq 0 2) /\
  Cells.shuffle_cell shuffle_rev 2 3 X_small W_edge
  = Py.Raise (Py.OtherError "KeyError").
Proof.
  split; [lia|]. split; [apply is_array_X_small|]. split; [apply is_array_2_2|].
  split; [lia|]. split; [apply shuffle_rev_range|].
  apply (causl_key_error shuffle_rev 1 2 3 X_small W_edge);
    [lia|apply is_array_X_small|apply is_array_2_2|lia|apply shuffle_rev_range].
Defined.

Lemma phenotype_after_shuffle_witness :
  (0 < 1)%nat /\ is_array 1 2 X_small /\ is_array 2 2 W_edge /\
  length w_causl_small = 1%nat /\ (1 <= 2)%nat /\ length noise_small = 1%nat /\
  Permutation (shuffle_rev (seq 0 2)) (seq 0 2) /\
  exists (p : Cells.phenotype) (r : Cells.shuffled),
    Cells.phenotype_cell 2 1 X_small w_causl_small noise_small = Py.Ok p /\
    Cells.shuffle_cell shuffle_rev 2 1 X_small W_edge = Py.Ok r /\
    forall i, (i < 1)%nat ->
      vget (Cells.y p) i
      = big_sum 1 (fun k => get (Cells.X r) i (nth k (Cells.causl r) O)
                            * vget w_causl_small k)
        + vget noise_small i.
Proof.
  split; [lia|]. split; [apply is_array_X_small|]. split; [apply is_array_2_2|].
  split; [reflexivity|]. split; [lia|]. split; [reflexivity|].
  split; [apply shuffle_rev_range|].
  apply (phenotype_after_shuffle shuffle_rev 1 2 1 X_small W_edge
           w_causl_small noise_small);
    [lia|apply is_array_X_small|apply is_array_2_2|reflexivity|lia|reflexivity
    |apply shuffle_rev_range].
Defined.

Lemma rounded_solver_edge (L : matrix) :
  Sqrt.laplacian W_edge = Py.Ok L -> eigh_rounded L = Py.Ok (ev_edge_rounded, U_edge).
Proof.
  rewrite laplacian_W_edge. intros E. injection E as <-. apply eigh_rounded_edge.
Qed.

Lemma sqrt_gram_any_solver_witness :
  is_array 2 2 W_edge /\ length ev_edge_rounded = 2%nat /\ is_array 2 2 U_edge /\
  exists (env : Sqrt.cell_env) (G : matrix),
    Sqrt.sqrt_cell eigh_rounded W_edge = Py.Ok env /\
    matmul (T (Sqrt.S env)) (Sqrt.S env) = Py.Ok G /\
    (forall i j, (i < 2)%nat -> (j < 2)%nat ->
       get G i j
       = big_sum 2 (fun k => get U_edge i k * Rmax 0 (vget ev_edge_rounded k)
                             * get U_edge j k)) /\
    forall x : vector, length x = 2%nat ->
      exists Sx : vector,
        dotv (Sqrt.S env) x = Py.Ok Sx /\
        Sqrt.quadratic_form 2 G x = big_sum 2 (fun k => vget Sx k * vget Sx k) /\
        0 <= Sqrt.quadratic_form 2 G x.
Proof.
  split; [apply is_array_2_2|]. split; [reflexivity|]. split; [apply is_array_2_2|].
  apply (sqrt_gram_any_solver eigh_rounded 2 W_edge ev_edge_rounded U_edge);
    [apply is_array_2_2|apply rounded_solver_edge|reflexivity|apply is_array_2_2].
Defined.

Lemma penalty_is_squared_norm_witness :
  Sqrt.adjacency 2 W_edge /\
  exists env : Sqrt.cell_env,
    Sqrt.sqrt_cell eigh_examples W_edge = Py.Ok env /\
    forall beta : vector, length beta = 2%nat ->
      exists Sb : vector,
        dotv (Sqrt.S env) beta = Py.Ok Sb /\
        Sqrt.quadratic_form 2 (Sqrt.L env) beta
        = big_sum 2 (fun k => vget Sb k * vget Sb k) /\
        2 * Sqrt.quadratic_form 2 (Sqrt.L env) beta
        = big_sum 2 (fun i => big_sum 2 (fun j =>
            get W_edge i j * (vget beta i - vget beta j) * (vget beta i - vget beta j))).
Proof.
  split; [apply adjacency_W_edge|].
  apply (penalty_is_squared_norm eigh_examples 2 W_edge ev_edge U_edge);
    [apply adjacency_W_edge|apply edge_solver_exact].
Defined.

Lemma laplacian_shape_error_witness :
  (0 < 1)%nat /\ (0 < 2)%nat /\ is_array 1 2 W_row /\
  (1%nat <> 2%nat /\ 1%nat <> 1%nat /\ 2%nat <> 1%nat ->
   Sqrt.laplacian W_row
   = Py.Raise (Py.ValueError "operands could not be broadcast together")) /\
  (1%nat = 2%nat \/ 1%nat = 1%nat \/ 2%nat = 1%nat ->
   exists L, Sqrt.laplacian W_row = Py.Ok L /\ is_array (Nat.max 1 2) 2 L).
Proof.
  assert (HA : is_array 1 2 W_row) by (split; [reflexivity|repeat constructor]).
  split; [lia|]. split; [lia|]. split; [exact HA|].
  apply (laplacian_shape_error 1 2 W_row); [lia|lia|exact HA].
Defined.

End CellsExamples.

(** ** The Laplacian of the shuffled network *)

Section ShuffledLaplacian.
Local Open Scope R_scope.
Import Np.

Lemma big_sum_as_list (n : nat) (f : nat -> R) :
  big_sum n f = fold_right Rplus 0 (map f (seq 0 n)).
Proof.
  induction n as [|n IH]; [reflexivity|].
  rewrite seq_S, map_app, fold_right_app. simpl. rewrite IH.
  generalize (map f (seq 0 n)). intros l. induction l as [|a l IHl]; simpl; [lra|].
  rewrite <- IHl. lra.
Qed.

Lemma sum_list_permutation (l1 l2 : list R) :
  Permutation l1 l2 -> fold_right Rplus 0 l1 = fold_right Rplus 0 l2.
Proof.
  induction 1 as [|x l l' _ IH|x y l|l l' l'' _ IH1 _ IH2]; simpl; lra.
Qed.

(** A sum over the features does not depend on their order. *)
Lemma big_sum_shuffled (n : nat) (l : list nat) (f : nat -> R) :
  Permutation l (seq 0 n) -> big_sum n (fun i => f (nth i l O)) = big_sum n f.
Proof.
  intros Hp. rewrite !big_sum_as_list.
  assert (Hlen : length l = n) by (rewrite (Permutation_length Hp); apply length_seq).
  replace (map (fun i => f (nth i l O)) (seq 0 n)) with (map f l).
  - apply sum_list_permutation, Permutation_map, Hp.
  - apply (nth_ext _ _ 0 0).
    + rewrite !length_map, length_seq. exact Hlen.
    + intros i Hi. rewrite length_map in Hi.
      rewrite (nth_indep (map f l) 0 (f O)) by (rewrite length_map; exact Hi).
      rewrite (nth_indep (map _ (seq 0 n)) 0 (f (nth O l O)))
        by (rewrite length_map, length_seq; lia).
      rewrite map_nth, (map_nth (fun i => f (nth i l O))), seq_nth by lia.
      reflexivity.
Qed.

Lemma nth_shuffled_injective (n : nat) (l : list nat) (i j : nat) :
  Permutation l (seq 0 n) -> (i < n)%nat -> (j < n)%nat ->
  Nat.eqb (nth i l O) (nth j l O) = Nat.eqb i j.
Proof.
  intros Hp Hi Hj. destruct (shuffled_range n l Hp) as (Hlen & Hnd & _ & _).
  destruct (Nat.eqb_spec i j) as [->|Hne]; [apply Nat.eqb_refl|].
  apply Nat.eqb_neq. intros E. apply Hne.
  apply (proj1 (List.NoDup_nth l O) Hnd); [lia|lia|exact E].
Qed.

(** X16. Shuffling the features and then building the Laplacian gives
    the Laplacian of the old network with rows and columns renamed in the
    same way: [L_new[i, j] = L[l[i], l[j]]] for the shuffled list [l]. *)
Theorem laplacian_of_shuffled (shuffle : list nat -> list nat) (m n c : nat)
        (X W : matrix) :
  (0 < m)%nat -> is_array m n X -> is_array n n W -> (c <= n)%nat ->
  Permutation (shuffle (seq 0 n)) (seq 0 n) ->
  exists (r : Cells.shuffled) (L L_new : matrix),
    Cells.shuffle_cell shuffle n c X W = Py.Ok r /\
    Sqrt.laplacian W = Py.Ok L /\
    Sqrt.laplacian (Cells.W r) = Py.Ok L_new /\
    forall i j, (i < n)%nat -> (j < n)%nat ->
      get L_new i j
      = get L (nth i (Cells.map_indices_l r) O) (nth j (Cells.map_indices_l r) O).
Proof.
  intros Hm HX HW Hc Hp.
  destruct (shuffle_cell_returns shuffle m n c X W Hm HX HW Hc Hp) as (causl & Hr & _).
  destruct (shuffled_range n _ Hp) as (Hlen & Hnd & Hlt & Hin).
  eexists. eexists. eexists. split; [exact Hr|].
  cbn [Cells.W Cells.map_indices_l].
  split; [apply (laplacian_square n W HW)|].
  split; [apply (laplacian_square n _ (is_array_mk_matrix n n _))|].
  set (l := shuffle (seq 0 n)) in *.
  intros i j Hi Hj.
  rewrite !get_mk_matrix by (try assumption; apply Hlt; assumption).
  unfold laplacian_entry. rewrite get_mk_matrix by assumption.
  rewrite (nth_shuffled_injective n l i j Hp Hi Hj).
  destruct (Nat.eqb i j); [|reflexivity]. f_equal.
  rewrite <- (big_sum_shuffled n l (fun k => get W k (nth i l O)) Hp).
  apply big_sum_ext. intros k Hk. rewrite get_mk_matrix by assumption. reflexivity.
Qed.

Lemma laplacian_of_shuffled_witness :
  (0 < 1)%nat /\ is_array 1 2 X_small /\ is_array 2 2 W_edge /\ (1 <= 2)%nat /\
  Permutation (shuffle_rev (seq 0 2)) (seq 0 2) /\
  exists (r : Cells.shuffled) (L L_new : matrix),
    Cells.shuffle_cell shuffle_rev 2 1 X_small W_edge = Py.Ok r /\
    Sqrt.laplacian W_edge = Py.Ok L /\
    Sqrt.laplacian (Cells.W r) = Py.Ok L_new /\
    forall i j, (i < 2)%nat -> (j < 2)%nat ->
      get L_new i j
      = get L (nth i (Cells.map_indices_l r) O) (nth j (Cells.map_indices_l r) O).
Proof.
  split; [lia|]. split; [apply is_array_X_small|]. split; [apply is_array_2_2|].
  split; [lia|]. split; [apply shuffle_rev_range|].
  apply (laplacian_of_shuffled shuffle_rev 1 2 1 X_small W_edge);
    [lia|apply is_array_X_small|apply is_array_2_2|lia|apply shuffle_rev_range].
Defined.

End ShuffledLaplacian.
